(** * Verification of the game store of dnd-master-club (useGameStore.ts)

    Shallow embedding of the parts of the zustand store that drive a
    game turn: the chat-log trigger guard of [joinRoom], [sendMessage],
    [performRoll], and [_triggerGmResponse] with its JSON repair and the
    Firestore batch it builds.  JavaScript strings are modelled as Rocq
    byte strings (UTF-8); JavaScript numbers as IEEE 754 binary64 values
    where their arithmetic matters (the dice roll), and as [Z] where the
    code only uses small integers (indices and lengths). *)

From Stdlib Require Import String Ascii List Bool ZArith Lia QArith Qround Qpower Qabs Lqa.
From Stdlib Require Import RelationClasses.
Import ListNotations.
Open Scope nat_scope.
Open Scope string_scope.
Set Warnings "-register-all".

(* ------------------------------------------------------------------ *)
(** ** JSON values, as produced by [JSON.parse] *)

(** A number keeps its lexeme; objects keep their keys in insertion order
    without duplicates (a repeated key overwrites the value in place, as
    [JSON.parse] does). *)
Inductive json : Type :=
| JNull
| JBool (b : bool)
| JNum (lexeme : string)
| JStr (s : string)
| JArr (l : list json)
| JObj (fields : list (string * json)).

Fixpoint assoc_get {A} (k : string) (l : list (string * A)) : option A :=
  match l with
  | [] => None
  | (k', v) :: r => if String.eqb k k' then Some v else assoc_get k r
  end.

(** [o[k] = v] on a plain object: overwrite in place or append. *)
Fixpoint assoc_set {A} (k : string) (v : A) (l : list (string * A))
  : list (string * A) :=
  match l with
  | [] => [(k, v)]
  | (k', v') :: r =>
      if String.eqb k k' then (k', v) :: r else (k', v') :: assoc_set k v r
  end.

Definition is_digit (c : ascii) : bool :=
  let n := nat_of_ascii c in (48 <=? n)%nat && (n <=? 57)%nat.

(* ------------------------------------------------------------------ *)
(** ** JavaScript numbers (IEEE 754 binary64) *)

(** A number: NaN, an infinity ([neg] gives its sign) or a finite value,
    kept as an exact rational that the operations below only ever set to
    a value binary64 represents.  The sign of zero is not kept: in the
    operations this code applies to numbers (ToBoolean, [*], [+],
    [Math.floor], [String]) [-0] and [+0] give the same observable
    results. *)
Inductive num : Type :=
| NaN
| Inf (neg : bool)
| Fin (x : Q).

Definition pow2 (e : Z) : Q := Qpower (2 # 1) e.
Definition pow10 (e : Z) : Q := Qpower (10 # 1) e.

(** [floor(log2 x)] for [x > 0]: [x = p / q] lies between
    [2^(log2 p - log2 q - 1)] and [2^(log2 p - log2 q + 1)]. *)
Definition Qlog2_floor (x : Q) : Z :=
  let t := (Z.log2 (Qnum x) - Z.log2 (Zpos (Qden x)))%Z in
  if Qle_bool (pow2 t) x then t else (t - 1)%Z.

(** Rounding to an integer: to the nearest, ties to the even one. *)
Definition round_half_even (m : Q) : Z :=
  let f := Qfloor m in
  match (m - inject_Z f ?= 1 # 2)%Q with
  | Lt => f
  | Gt => (f + 1)%Z
  | Eq => if Z.even f then f else (f + 1)%Z
  end.

(** The Number value for [x] (ECMAScript's F(x), IEEE 754 rounding to
    nearest, ties to even): [x = n * 2^e] rounded to a significand [n] of
    53 bits, with the exponent [e] at least [-1074] (subnormals); an
    infinity when the rounded value reaches [2^1024]. *)
Definition to_number (x : Q) : num :=
  if Qeq_bool x 0 then Fin 0
  else
    let a := Qabs x in
    let e := Z.max (Qlog2_floor a - 52) (-1074) in
    let n := round_half_even (a / pow2 e) in
    if Qle_bool (pow2 1024) (inject_Z n * pow2 e) then Inf (negb (Qle_bool 0 x))
    else Fin (Qred (inject_Z (if Qle_bool 0 x then n else - n) * pow2 e)).


(** ToBoolean: [NaN] and zero are falsy. *)
Definition num_truthy (v : num) : bool :=
  match v with
  | NaN => false
  | Inf _ => true
  | Fin x => negb (Qeq_bool x 0)
  end.

(** [a * b]. *)
Definition num_mul (a b : num) : num :=
  match a, b with
  | NaN, _ | _, NaN => NaN
  | Inf s, Inf t => Inf (xorb s t)
  | Inf s, Fin y | Fin y, Inf s =>
      if Qeq_bool y 0 then NaN else Inf (xorb s (negb (Qle_bool 0 y)))
  | Fin x, Fin y => to_number (x * y)
  end.

(** [a + b]. *)
Definition num_add (a b : num) : num :=
  match a, b with
  | NaN, _ | _, NaN => NaN
  | Inf s, Inf t => if Bool.eqb s t then Inf s else NaN
  | Inf s, Fin _ | Fin _, Inf s => Inf s
  | Fin x, Fin y => to_number (x + y)
  end.

(** [Math.floor]: the floor of a finite number is itself a number. *)
Definition num_floor (v : num) : num :=
  match v with
  | Fin x => Fin (inject_Z (Qfloor x))
  | _ => v
  end.

Fixpoint digits_aux (fuel : nat) (n : Z) (acc : string) : string :=
  match fuel with
  | O => acc
  | S f =>
      let acc' := String (ascii_of_nat (48 + Z.to_nat (n mod 10))) acc in
      if (n <? 10)%Z then acc' else digits_aux f (n / 10) acc'
  end.

(** The decimal digits of a non-negative integer (it has at most
    [log2 n + 1] of them). *)
Definition Z_dec (n : Z) : string := digits_aux (S (Z.to_nat (Z.log2 n))) n "".

Fixpoint zeros (k : nat) : string :=
  match k with
  | O => ""
  | S k' => String "0" (zeros k')
  end.

(** [floor(log10 x)] for [x > 0]: with [p] of [dp] digits and [q] of [dq]
    digits, [p / q] lies between [10^(dp - dq - 1)] and [10^(dp - dq + 1)]. *)
Definition Qlog10_floor (x : Q) : Z :=
  let t := (Z.of_nat (String.length (Z_dec (Qnum x)))
            - Z.of_nat (String.length (Z_dec (Zpos (Qden x)))))%Z in
  if Qle_bool (pow10 t) x then t else (t - 1)%Z.

Definition num_eqb (a b : num) : bool :=
  match a, b with
  | NaN, NaN => true
  | Inf s, Inf t => Bool.eqb s t
  | Fin x, Fin y => Qeq_bool x y
  | _, _ => false
  end.

(** Number::toString, step 5: the pairs [(s, n)] with [s] of [k] digits and
    F(s * 10^(n - k)) = x.  The values that round to [x] form an interval
    around [x] within the decades next to [x]'s, so the [k]-digit
    decimals nearest to [x] from below and from above, [floor] and
    [ceiling] of [x / 10^(n - k)] for [n] in [E + 1 .. E + 3]
    with [E = floor(log10 x)], contain every closest choice. *)
Definition tostring_candidates (x : Q) (k : Z) : list (Z * Z) :=
  let E := Qlog10_floor x in
  filter (fun '(s, n) => ((10 ^ (k - 1) <=? s)%Z && (s <? 10 ^ k)%Z)
                         && num_eqb (to_number (inject_Z s * pow10 (n - k))%Q) (Fin x))
    (flat_map (fun n => let y := (x / pow10 (n - k))%Q in [(Qfloor y, n); (Qceiling y, n)])
              [E; (E + 1)%Z; (E + 2)%Z]).

(** Among the candidates, the one with [s * 10^(n - k)] closest to [x],
    the even [s] on a tie. *)
Definition tostring_pick (x : Q) (k : Z) (c : list (Z * Z)) : option (Z * Z) :=
  let dist '(s, n) := Qabs (inject_Z s * pow10 (n - k) - x)%Q in
  fold_left (fun acc sn =>
               match acc with
               | None => Some sn
               | Some best =>
                   match (dist sn ?= dist best)%Q with
                   | Lt => Some sn
                   | Gt => acc
                   | Eq => if Z.even (fst best) then acc else Some sn
                   end
               end) c None.

(** The smallest [k] that has a candidate (17 digits always suffice for
    binary64), with its [s] and [n]. *)
Fixpoint tostring_shortest (x : Q) (k : Z) (fuel : nat) : option (Z * Z * Z) :=
  match fuel with
  | O => None
  | S f =>
      match tostring_pick x k (tostring_candidates x k) with
      | Some (s, n) => Some (s, k, n)
      | None => tostring_shortest x (k + 1) f
      end
  end.

(** Number::toString, steps 6 to 10. *)
Definition format_decimal (s k n : Z) : string :=
  let ds := Z_dec s in
  if ((k <=? n) && (n <=? 21))%Z then ds ++ zeros (Z.to_nat (n - k))
  else if ((0 <? n) && (n <=? 21))%Z then
    substring 0 (Z.to_nat n) ds ++ "." ++ substring (Z.to_nat n) (Z.to_nat (k - n)) ds
  else if ((-6 <? n) && (n <=? 0))%Z then "0." ++ zeros (Z.to_nat (- n)) ++ ds
  else
    let e := (n - 1)%Z in
    (if (k =? 1)%Z then ds
     else substring 0 1 ds ++ "." ++ substring 1 (Z.to_nat (k - 1)) ds)
    ++ "e" ++ (if (e <? 0)%Z then "-" else "+") ++ Z_dec (Z.abs e).

(** [String(v)] of a number (Number::toString in radix 10). *)
Definition num_to_string (v : num) : string :=
  match v with
  | NaN => "NaN"
  | Inf false => "Infinity"
  | Inf true => "-Infinity"
  | Fin x =>
      if Qeq_bool x 0 then "0"
      else
        let sg := if Qle_bool 0 x then "" else "-" in
        match tostring_shortest (Qabs x) 1 17 with
        | Some (s, k, n) => sg ++ format_decimal s k n
        | None => sg
        end
  end.

(** The leading decimal digits of [s], as (value, count, rest). *)
Fixpoint lex_digits (acc cnt : Z) (s : string) : Z * Z * string :=
  match s with
  | String c r =>
      if is_digit c then lex_digits (acc * 10 + (Z.of_nat (nat_of_ascii c) - 48))%Z (cnt + 1)%Z r
      else (acc, cnt, s)
  | EmptyString => (acc, cnt, s)
  end.

(** The mathematical value of a JSON number lexeme
    [-? digits (. digits)? ([eE] [+-]? digits)?]. *)
Definition lexeme_value (l : string) : Q :=
  let '(sg, s1) := match l with
                   | String "-" r => ((-1)%Z, r)
                   | _ => (1%Z, l)
                   end in
  let '(ip, _, s2) := lex_digits 0 0 s1 in
  let '(m, fc, s3) := match s2 with
                      | String "." r => lex_digits ip 0 r
                      | _ => (ip, 0%Z, s2)
                      end in
  let ex := match s3 with
            | String _ (String "-" r) => (- fst (fst (lex_digits 0 0 r)))%Z
            | String _ (String "+" r) => fst (fst (lex_digits 0 0 r))
            | String _ r => fst (fst (lex_digits 0 0 r))
            | EmptyString => 0%Z
            end in
  (inject_Z (sg * m) * pow10 (ex - fc))%Q.

(** The number [JSON.parse] reads from a lexeme: the value rounded to the
    nearest number (exactly, as engines do; ECMAScript also allows
    approximating after the 20th significant digit). *)
Definition number_of_lexeme (l : string) : num := to_number (lexeme_value l).

(** ToBoolean of a JSON value. *)
Definition truthy (j : json) : bool :=
  match j with
  | JNull => false
  | JBool b => b
  | JNum l => num_truthy (number_of_lexeme l)
  | JStr s => negb (String.eqb s "")
  | JArr _ | JObj _ => true
  end.

(** A possibly missing property ([undefined] is [None]). *)
Definition truthy_opt (o : option json) : bool :=
  match o with Some j => truthy j | None => false end.

(* ------------------------------------------------------------------ *)
(** ** [JSON.parse] *)

Definition is_json_ws (c : ascii) : bool :=
  let n := nat_of_ascii c in
  (n =? 32)%nat || (n =? 9)%nat || (n =? 10)%nat || (n =? 13)%nat.

Fixpoint skip_ws (s : string) : string :=
  match s with
  | String c r => if is_json_ws c then skip_ws r else s
  | EmptyString => s
  end.

Definition hex_val (c : ascii) : option nat :=
  let n := nat_of_ascii c in
  if (48 <=? n)%nat && (n <=? 57)%nat then Some (n - 48)%nat
  else if (65 <=? n)%nat && (n <=? 70)%nat then Some (n - 55)%nat
  else if (97 <=? n)%nat && (n <=? 102)%nat then Some (n - 87)%nat
  else None.

(** UTF-8 encoding of a UTF-16 code unit from a [\uXXXX] escape. *)
Definition utf8_of_code (n : nat) : string :=
  if (n <? 128)%nat then String (ascii_of_nat n) EmptyString
  else if (n <? 2048)%nat then
    String (ascii_of_nat (192 + n / 64))
      (String (ascii_of_nat (128 + n mod 64)) EmptyString)
  else
    String (ascii_of_nat (224 + n / 4096))
      (String (ascii_of_nat (128 + (n / 64) mod 64))
         (String (ascii_of_nat (128 + n mod 64)) EmptyString)).

(** The body of a string literal, after the opening quote. *)
Fixpoint parse_str_body (s : string) : option (string * string) :=
  match s with
  | EmptyString => None
  | String c r =>
      if (c =? "034")%char then Some (EmptyString, r)
      else if (nat_of_ascii c <? 32)%nat then None
      else if (c =? "\")%char then
        match r with
        | String e r' =>
            let k := fun d => option_map (fun '(b, t) => (String d b, t))
                                         (parse_str_body r') in
            if (e =? "034")%char then k "034"%char
            else if (e =? "\")%char then k "\"%char
            else if (e =? "/")%char then k "/"%char
            else if (e =? "b")%char then k (ascii_of_nat 8)
            else if (e =? "f")%char then k (ascii_of_nat 12)
            else if (e =? "n")%char then k (ascii_of_nat 10)
            else if (e =? "r")%char then k (ascii_of_nat 13)
            else if (e =? "t")%char then k (ascii_of_nat 9)
            else if (e =? "u")%char then
              match r' with
              | String h1 (String h2 (String h3 (String h4 r''))) =>
                  match hex_val h1, hex_val h2, hex_val h3, hex_val h4 with
                  | Some a, Some b, Some c', Some d =>
                      option_map
                        (fun '(bd, t) =>
                           (utf8_of_code (a * 4096 + b * 256 + c' * 16 + d)
                            ++ bd, t))
                        (parse_str_body r'')
                  | _, _, _, _ => None
                  end
              | _ => None
              end
            else None
        | EmptyString => None
        end
      else option_map (fun '(b, t) => (String c b, t)) (parse_str_body r)
  end.

Fixpoint take_digits (s : string) : string * string :=
  match s with
  | String c r =>
      if is_digit c then let '(d, t) := take_digits r in (String c d, t)
      else (EmptyString, s)
  | EmptyString => (EmptyString, EmptyString)
  end.

(** Number grammar: [-? (0 | [1-9][0-9]* ) (. [0-9]+)? ([eE] [+-]? [0-9]+)?]. *)
Definition parse_number (s : string) : option (string * string) :=
  let '(sign, s1) := match s with
                     | String "-" r => ("-", r)
                     | _ => (EmptyString, s)
                     end in
  let int_part :=
    match s1 with
    | String "0" r => Some ("0", r)
    | String c _ => if is_digit c then Some (take_digits s1) else None
    | EmptyString => None
    end in
  match int_part with
  | None => None
  | Some (ip, s2) =>
      let frac :=
        match s2 with
        | String "." r =>
            let '(d, t) := take_digits r in
            if String.eqb d EmptyString then None else Some ("." ++ d, t)
        | _ => Some (EmptyString, s2)
        end in
      match frac with
      | None => None
      | Some (fp, s3) =>
          let expo :=
            match s3 with
            | String e r =>
                if (e =? "e")%char || (e =? "E")%char then
                  let '(sg, r1) := match r with
                                   | String "+" r' => ("+", r')
                                   | String "-" r' => ("-", r')
                                   | _ => (EmptyString, r)
                                   end in
                  let '(d, t) := take_digits r1 in
                  if String.eqb d EmptyString then None
                  else Some (String e (sg ++ d), t)
                else Some (EmptyString, s3)
            | EmptyString => Some (EmptyString, s3)
            end in
          match expo with
          | None => None
          | Some (ep, s4) => Some (sign ++ ip ++ fp ++ ep, s4)
          end
      end
  end.

Fixpoint parse_value (fuel : nat) (s : string) : option (json * string) :=
  match fuel with
  | O => None
  | S f =>
      match skip_ws s with
      | String "{" r =>
          match skip_ws r with
          | String "}" r' => Some (JObj [], r')
          | _ => parse_members f r []
          end
      | String "[" r =>
          match skip_ws r with
          | String "]" r' => Some (JArr [], r')
          | _ => parse_elements f r []
          end
      | String "034" r =>
          option_map (fun '(b, t) => (JStr b, t)) (parse_str_body r)
      | String "t" (String "r" (String "u" (String "e" r))) => Some (JBool true, r)
      | String "f" (String "a" (String "l" (String "s" (String "e" r)))) =>
          Some (JBool false, r)
      | String "n" (String "u" (String "l" (String "l" r))) => Some (JNull, r)
      | t => option_map (fun '(l, t') => (JNum l, t')) (parse_number t)
      end
  end
with parse_members (fuel : nat) (s : string) (acc : list (string * json))
  : option (json * string) :=
  match fuel with
  | O => None
  | S f =>
      match skip_ws s with
      | String "034" r =>
          match parse_str_body r with
          | Some (k, r1) =>
              match skip_ws r1 with
              | String ":" r2 =>
                  match parse_value f r2 with
                  | Some (v, r3) =>
                      match skip_ws r3 with
                      | String "," r4 => parse_members f r4 (assoc_set k v acc)
                      | String "}" r4 => Some (JObj (assoc_set k v acc), r4)
                      | _ => None
                      end
                  | None => None
                  end
              | _ => None
              end
          | None => None
          end
      | _ => None
      end
  end
with parse_elements (fuel : nat) (s : string) (acc : list json)
  : option (json * string) :=
  match fuel with
  | O => None
  | S f =>
      match parse_value f s with
      | Some (v, r) =>
          match skip_ws r with
          | String "," r' => parse_elements f r' (acc ++ [v])%list
          | String "]" r' => Some (JArr (acc ++ [v])%list, r')
          | _ => None
          end
      | None => None
      end
  end.

(** [JSON.parse(text)]: one value, surrounded by whitespace only.  Every
    nested call consumes at least one character, so [length text + 1]
    rounds of fuel suffice. *)
Definition json_parse (text : string) : option json :=
  match parse_value (S (String.length text)) text with
  | Some (v, rest) =>
      match skip_ws rest with EmptyString => Some v | _ => None end
  | None => None
  end.

(* ------------------------------------------------------------------ *)
(** ** Exceptions and the store's records *)

(** What a [throw] inside [_triggerGmResponse] can carry: a failed
    [axios.post], the two [Error]s of the JSON fallback, a [TypeError]
    raised by JavaScript on an ill-shaped response, and a rejected
    Firestore write. *)
Inductive exn : Type :=
| NetworkError
| JsonError (msg : string)
| TypeError
| FirestoreError.

Inductive result (A : Type) : Type :=
| Ok (a : A)
| Err (e : exn).
Arguments Ok {A} a.
Arguments Err {A} e.

(** [interface Player]. *)
Record Player : Type := mkPlayer {
  p_id : string;
  p_name : string;
  p_avatar : option string;
  p_characterClass : option string;
  p_stats : list (string * Z);
  p_isReady : bool;
  p_choices : option json   (* [choices?: string[] | null]; [None]: absent *)
}.

(** [if (!pClass) return;]: the class label when it is a non-empty string. *)
Definition class_label (p : Player) : option string :=
  match p_characterClass p with
  | Some c => if String.eqb c "" then None else Some c
  | None => None
  end.

(* ------------------------------------------------------------------ *)
(** ** Response repair, stage 1: parsing the raw reply *)

Fixpoint last_close (s : string) : option nat :=
  match s with
  | EmptyString => None
  | String c r =>
      match last_close r with
      | Some j => Some (S j)
      | None => if (c =? "}")%char then Some 0 else None
      end
  end.

(** [rawContent.match(/\{[\s\S]*\}/)]: the leftmost match starts at the
    first [{]; the greedy [[\s\S]*] stretches it to the last [}] after it.
    When the first [{] has no [}] after it, no later [{] has one either. *)
Fixpoint brace_match (s : string) : option string :=
  match s with
  | EmptyString => None
  | String c r =>
      if (c =? "{")%char then
        match last_close r with
        | Some j => Some (String c (substring 0 (S j) r))
        | None => None
        end
      else brace_match r
  end.

(** The [try { JSON.parse } catch { regex; JSON.parse }] block. *)
Definition parse_gm_response (rawContent : string) : result json :=
  match json_parse rawContent with
  | Some v => Ok v
  | None =>
      match brace_match rawContent with
      | Some m =>
          match json_parse m with
          | Some v => Ok v
          | None => Err (JsonError "Unrecoverable JSON error")
          end
      | None => Err (JsonError "No JSON object found in response")
      end
  end.

(** The fallback the specification describes: the first substring from an
    opening brace to the brace that closes it (depth counting). *)
Fixpoint close_at_depth (depth : nat) (s : string) : option string :=
  match s with
  | EmptyString => None
  | String c r =>
      if (c =? "{")%char then
        option_map (String c) (close_at_depth (S depth) r)
      else if (c =? "}")%char then
        match depth with
        | O => None
        | S O => Some (String c EmptyString)
        | S d => option_map (String c) (close_at_depth d r)
        end
      else option_map (String c) (close_at_depth depth r)
  end.

Fixpoint first_balanced_span (s : string) : option string :=
  match s with
  | EmptyString => None
  | String c r =>
      if (c =? "{")%char then close_at_depth 0 s else first_balanced_span r
  end.

Definition spec_parse_gm_response (raw : string) : result json :=
  match json_parse raw with
  | Some v => Ok v
  | None =>
      match first_balanced_span raw with
      | Some m =>
          match json_parse m with
          | Some v => Ok v
          | None => Err (JsonError "ResponseParseError")
          end
      | None => Err (JsonError "ResponseParseError")
      end
  end.

(* ------------------------------------------------------------------ *)
(** ** Property access on the parsed reply *)

Definition rbind {A B} (m : result A) (f : A -> result B) : result B :=
  match m with Ok a => f a | Err e => Err e end.

Notation "'let!' x := m 'in' k" := (rbind m (fun x => k))
  (at level 200, x name, m at level 100, k at level 200).

(** How JavaScript sees a parsed value when the code reads, lists or
    assigns its properties: an object (an array is an object whose keys
    are its indices), a primitive (readable, but assigning a property
    throws in strict-mode module code; a string's keys are its indices),
    or [null] (every property access throws). *)
Inductive jsv : Type :=
| VObj (fs : list (string * json))
| VPrim (fs : list (string * json))
| VNull.

Fixpoint nat_to_dec_aux (fuel n : nat) (acc : string) : string :=
  match fuel with
  | O => acc
  | S f =>
      let acc' := String (ascii_of_nat (48 + n mod 10)) acc in
      if (n <? 10)%nat then acc' else nat_to_dec_aux f (n / 10) acc'
  end.

(** The decimal representation of a natural number. *)
Definition nat_to_dec (n : nat) : string := nat_to_dec_aux (S n) n "".

Fixpoint indexed {A} (i : nat) (l : list A) : list (string * A) :=
  match l with
  | [] => []
  | x :: r => (nat_to_dec i, x) :: indexed (S i) r
  end.

Fixpoint string_chars (s : string) : list json :=
  match s with
  | EmptyString => []
  | String c r => JStr (String c EmptyString) :: string_chars r
  end.

Definition view (j : json) : jsv :=
  match j with
  | JObj fs => VObj fs
  | JArr l => VObj (indexed 0 l)
  | JStr s => VPrim (indexed 0 (string_chars s))
  | JNum _ | JBool _ => VPrim []
  | JNull => VNull
  end.

Definition get_prop (o : jsv) (k : string) : result (option json) :=
  match o with
  | VObj fs | VPrim fs => Ok (assoc_get k fs)
  | VNull => Err TypeError
  end.

Definition set_prop (o : jsv) (k : string) (v : json) : result jsv :=
  match o with
  | VObj fs => Ok (VObj (assoc_set k v fs))
  | VPrim _ | VNull => Err TypeError
  end.

(** [Object.keys]. *)
Definition keys (o : jsv) : list string :=
  match o with VObj fs | VPrim fs => map fst fs | VNull => [] end.

(** The continuation byte [10xxxxxx] of a UTF-8 sequence, as its six bits. *)
Definition utf8_cont (c : ascii) : option Z :=
  let n := Z.of_nat (nat_of_ascii c) in
  if ((128 <=? n) && (n <? 192))%Z then Some (n - 128)%Z else None.

(** The first code point of a UTF-8 string and the rest of it; [None] on
    the empty string or when the first bytes do not form a well-formed
    sequence (overlong forms included). *)
Definition utf8_head (s : string) : option (Z * string) :=
  match s with
  | EmptyString => None
  | String c r =>
      let b := Z.of_nat (nat_of_ascii c) in
      if (b <? 128)%Z then Some (b, r)
      else if (b <? 194)%Z then None
      else if (b <? 224)%Z then
        match r with
        | String c1 r1 =>
            match utf8_cont c1 with
            | Some x1 => Some (((b - 192) * 64 + x1)%Z, r1)
            | None => None
            end
        | EmptyString => None
        end
      else if (b <? 240)%Z then
        match r with
        | String c1 (String c2 r2) =>
            match utf8_cont c1, utf8_cont c2 with
            | Some x1, Some x2 =>
                let cp := ((b - 224) * 4096 + x1 * 64 + x2)%Z in
                if (2048 <=? cp)%Z then Some (cp, r2) else None
            | _, _ => None
            end
        | _ => None
        end
      else if (b <? 245)%Z then
        match r with
        | String c1 (String c2 (String c3 r3)) =>
            match utf8_cont c1, utf8_cont c2, utf8_cont c3 with
            | Some x1, Some x2, Some x3 =>
                let cp := ((b - 240) * 262144 + x1 * 4096 + x2 * 64 + x3)%Z in
                if ((65536 <=? cp) && (cp <=? 1114111))%Z then Some (cp, r3) else None
            | _, _, _ => None
            end
        | _ => None
        end
      else None
  end.

(** [s.length]: the number of UTF-16 code units, two for a code point
    above U+FFFF (a byte that starts no well-formed sequence counts as
    one). *)
Fixpoint js_length_aux (fuel : nat) (s : string) : nat :=
  match fuel with
  | O => 0
  | S f =>
      match s with
      | EmptyString => 0
      | String _ r' =>
          match utf8_head s with
          | Some (cp, r) => ((if (cp <? 65536)%Z then 1 else 2) + js_length_aux f r)%nat
          | None => S (js_length_aux f r')
          end
      end
  end.

Definition js_length (s : string) : nat := js_length_aux (String.length s) s.

(** [String.prototype.toLowerCase], on ASCII letters. *)
Definition lower_char (c : ascii) : ascii :=
  let n := nat_of_ascii c in
  if (65 <=? n)%nat && (n <=? 90)%nat then ascii_of_nat (n + 32) else c.

Fixpoint to_lower (s : string) : string :=
  match s with
  | EmptyString => EmptyString
  | String c r => String (lower_char c) (to_lower r)
  end.

(** [Object.keys(o).find(k => k.toLowerCase() === cls.toLowerCase())]. *)
Definition find_key (o : jsv) (cls : string) : option string :=
  find (fun k => String.eqb (to_lower k) (to_lower cls)) (keys o).

(* ------------------------------------------------------------------ *)
(** ** Response repair, stage 2: padding the choices *)

Definition defaults : list string :=
  ["Observe surroundings"; "Ready weapon"; "Discuss with party"; "Search area"].

(** [currentChoices.includes(d)]. *)
Definition includes (l : list json) (d : string) : bool :=
  existsb (fun e => match e with JStr s => String.eqb s d | _ => false end) l.

(** [defaults.find(d => !currentChoices.includes(d)) || "Wait"]. *)
Definition next_default (cur : list json) : string :=
  match find (fun d => negb (includes cur d)) defaults with
  | Some d => d
  | None => "Wait"
  end.

(** [while (currentChoices.length < 2) currentChoices.push(nextDefault)];
    every round adds one entry, so two rounds of fuel suffice. *)
Fixpoint pad_loop (fuel : nat) (cur : list json) : list json :=
  match fuel with
  | O => cur
  | S f =>
      if (length cur <? 2)%nat then pad_loop f (cur ++ [JStr (next_default cur)])%list
      else cur
  end.

Definition pad_choices (cur : list json) : list json := pad_loop 2 cur.

(** The body of [players.forEach(p => ...)] in the repair.  The
    [currentChoices.length < 2] test reads [length] of the entry: an array
    is padded, a string shorter than two UTF-16 code units has no [push]
    (a [TypeError]), [null] has no [length] (a [TypeError]), and numbers,
    booleans and objects (taken to have no [length] property) are left
    as they are. *)
Definition repair_player (c : jsv) (p : Player) : result jsv :=
  match class_label p with
  | None => Ok c
  | Some pClass =>
      let! ck :=
        match find_key c pClass with
        | Some k => Ok (c, k)
        | None => let! c' := set_prop c pClass (JArr []) in Ok (c', pClass)
        end in
      let '(c1, choiceKey) := ck in
      let! cur := get_prop c1 choiceKey in
      match cur with
      | Some (JArr l) =>
          if (length l <? 2)%nat then set_prop c1 choiceKey (JArr (pad_choices l))
          else Ok c1
      | Some (JStr s) =>
          if (js_length s <? 2)%nat then Err TypeError else Ok c1
      | Some JNull | None => Err TypeError
      | Some _ => Ok c1
      end
  end.

Fixpoint repair_players (ps : list Player) (c : jsv) : result jsv :=
  match ps with
  | [] => Ok c
  | p :: r => let! c' := repair_player c p in repair_players r c'
  end.

(** [if (!gmResponse.roll_request) { ... }]. *)
Definition repair_choices (players : list Player) (resp : jsv) : result jsv :=
  let! rr := get_prop resp "roll_request" in
  if truthy_opt rr then Ok resp
  else
    let! ch := get_prop resp "choices" in
    let! resp1 := if truthy_opt ch then Ok resp
                  else set_prop resp "choices" (JObj []) in
    let! ch1 := get_prop resp1 "choices" in
    let c := view (match ch1 with Some j => j | None => JNull end) in
    let! c' := repair_players players c in
    match c' with
    | VObj fs => set_prop resp1 "choices" (JObj fs)
    | _ => Ok resp1
    end.

(** Parsing followed by the repair: the value [gmResponse] holds when the
    reconciliation starts. *)
Definition repair_response (players : list Player) (raw : string) : result jsv :=
  let! v := parse_gm_response raw in repair_choices players (view v).

Definition fighter : Player :=
  mkPlayer "p1" "Ann" None (Some "Fighter") [] true None.

(* ------------------------------------------------------------------ *)
(** ** The store's documents *)

Record RollRequest : Type := mkRollRequest {
  rr_playerId : string;
  rr_playerName : string;
  rr_diceType : json;
  rr_reason : json
}.

Inductive GameStatus : Type := Lobby | Playing.

Record GameRoom : Type := mkGameRoom {
  r_id : string;
  r_hostId : string;
  r_gameStatus : GameStatus;
  r_activeRoll : option RollRequest;
  r_currentScene : option json
}.

Inductive Role : Type := RUser | RAssistant | RSystem.

Record ChatMessage : Type := mkChatMessage {
  m_id : string;
  m_role : Role;
  m_content : json;
  m_senderName : option string;
  m_isAction : option bool
}.

(** The Firestore documents of one room: the room, its [players]
    collection (one document per player id) and its [messages]
    collection in timestamp order. *)
Record Db : Type := mkDb {
  db_room : GameRoom;
  db_players : list Player;
  db_messages : list ChatMessage
}.

(** The zustand state a session holds ([GameState]). *)
Record Session : Type := mkSession {
  s_room : option GameRoom;
  s_players : list Player;
  s_chatHistory : list ChatMessage;
  s_playerId : option string;
  s_isAiThinking : bool;
  s_lastHandledMessageId : option string
}.

(** The world a store action runs against.  [w_faults] decides the fate
    of the Firestore writes in order: [false] rejects the write, and
    writes beyond the list succeed. *)
Record World : Type := mkWorld {
  w_db : Db;
  w_st : Session;
  w_faults : list bool
}.

(* ------------------------------------------------------------------ *)
(** ** A state and exception monad for the async store actions *)

Definition M (A : Type) : Type := World -> result A * World.

Definition ret {A} (a : A) : M A := fun w => (Ok a, w).

Definition bind {A B} (m : M A) (f : A -> M B) : M B :=
  fun w => match m w with
           | (Ok a, w') => f a w'
           | (Err e, w') => (Err e, w')
           end.

Notation "x <- m ;; k" := (bind m (fun x => k))
  (at level 61, m at next level, right associativity).
Notation "m ;; k" := (bind m (fun _ => k))
  (at level 61, right associativity).

Definition throw {A} (e : exn) : M A := fun w => (Err e, w).

Definition lift {A} (r : result A) : M A := fun w => (r, w).

Definition get_st : M Session := fun w => (Ok (w_st w), w).

Definition put_st (s : Session) : M unit :=
  fun w => (Ok tt, mkWorld (w_db w) s (w_faults w)).

(** [try { m } catch (e) { h(e) }]. *)
Definition try_catch {A} (m : M A) (h : exn -> M A) : M A :=
  fun w => match m w with
           | (Ok a, w') => (Ok a, w')
           | (Err e, w') => h e w'
           end.

(** [try { m } finally { fin }]: an exception of [fin] replaces the
    outcome of [m]. *)
Definition finally {A} (m : M A) (fin : M unit) : M A :=
  fun w => let '(r, w') := m w in
           match fin w' with
           | (Ok _, w'') => (r, w'')
           | (Err e, w'') => (Err e, w'')
           end.

Definition set_isAiThinking (b : bool) : M unit :=
  s <- get_st ;;
  put_st (mkSession (s_room s) (s_players s) (s_chatHistory s) (s_playerId s)
                    b (s_lastHandledMessageId s)).

(* ------------------------------------------------------------------ *)
(** ** Firestore writes *)

(** Firestore refuses an array directly inside an array. *)
Fixpoint fs_valid (v : json) : bool :=
  match v with
  | JArr l => forallb (fun e => match e with
                                | JArr _ => false
                                | e' => fs_valid e'
                                end) l
  | JObj fs => forallb (fun kv => fs_valid (snd kv)) fs
  | _ => true
  end.

Definition check_fs (v : json) : M unit :=
  if fs_valid v then ret tt else throw FirestoreError.

(** The next write's fate, consumed from [w_faults]. *)
Definition write_ok : M bool :=
  fun w => match w_faults w with
           | [] => (Ok true, w)
           | b :: r => (Ok b, mkWorld (w_db w) (w_st w) r)
           end.

Definition put_db (d : Db) : M unit :=
  fun w => (Ok tt, mkWorld d (w_st w) (w_faults w)).

Definition get_db : M Db := fun w => (Ok (w_db w), w).

(** [addDoc(collection(db, 'rooms', room.id, 'messages'), data)]; the new
    document gets a fresh id. *)
Definition addMessage (role : Role) (content : json) (sender : option string)
  (isAction : option bool) : M unit :=
  check_fs content ;;
  ok <- write_ok ;;
  if ok then
    d <- get_db ;;
    let id := "m" ++ nat_to_dec (length (db_messages d)) in
    put_db (mkDb (db_room d) (db_players d)
                 (db_messages d ++ [mkChatMessage id role content sender isAction])%list)
  else throw FirestoreError.

Definition set_activeRoll (r : GameRoom) (a : option RollRequest) : GameRoom :=
  mkGameRoom (r_id r) (r_hostId r) (r_gameStatus r) a (r_currentScene r).

Definition set_currentScene (r : GameRoom) (sc : json) : GameRoom :=
  mkGameRoom (r_id r) (r_hostId r) (r_gameStatus r) (r_activeRoll r) (Some sc).

Definition set_choices (p : Player) (c : json) : Player :=
  mkPlayer (p_id p) (p_name p) (p_avatar p) (p_characterClass p) (p_stats p)
           (p_isReady p) (Some c).

(** [updateDoc] of a player document: Firestore rejects it when the
    document does not exist. *)
Definition player_exists (ps : list Player) (pid : string) : bool :=
  existsb (fun p => String.eqb (p_id p) pid) ps.

Definition update_players (ps : list Player) (pid : string) (f : Player -> Player)
  : list Player :=
  map (fun p => if String.eqb (p_id p) pid then f p else p) ps.

(** The updates a [writeBatch] collects. *)
Inductive BatchOp : Type :=
| SetScene (sc : json)
| SetActiveRoll (a : RollRequest)
| DeleteActiveRoll
| SetChoices (pid : string) (c : json).

Definition apply_op (d : Db) (op : BatchOp) : Db :=
  match op with
  | SetScene sc => mkDb (set_currentScene (db_room d) sc) (db_players d) (db_messages d)
  | SetActiveRoll a => mkDb (set_activeRoll (db_room d) (Some a)) (db_players d) (db_messages d)
  | DeleteActiveRoll => mkDb (set_activeRoll (db_room d) None) (db_players d) (db_messages d)
  | SetChoices pid c =>
      mkDb (db_room d) (update_players (db_players d) pid (fun p => set_choices p c))
           (db_messages d)
  end.

Definition op_target_ok (d : Db) (op : BatchOp) : bool :=
  match op with
  | SetChoices pid _ => player_exists (db_players d) pid
  | _ => true
  end.

(** [batch.commit()]: all updates or none. *)
Definition commit (ops : list BatchOp) : M unit :=
  ok <- write_ok ;;
  d <- get_db ;;
  if ok && forallb (op_target_ok d) ops then put_db (fold_left apply_op ops d)
  else throw FirestoreError.

(* ------------------------------------------------------------------ *)
(** ** The reconciliation: the batch [_triggerGmResponse] builds *)

Definition or_default (o : option json) (d : string) : json :=
  match o with Some v => if truthy v then v else JStr d | None => JStr d end.

(** [batch.update(ref, data)] validates [data] when it is called. *)
Definition valid_op (op : BatchOp) : bool :=
  match op with
  | SetScene sc => fs_valid sc
  | SetActiveRoll a => fs_valid (rr_diceType a) && fs_valid (rr_reason a)
  | DeleteActiveRoll => true
  | SetChoices _ c => fs_valid c
  end.

(** [players.find(p => p.characterClass === targetClassName)]. *)
Definition class_is (p : Player) (t : json) : bool :=
  match p_characterClass p, t with
  | Some c, JStr s => String.eqb c s
  | _, _ => false
  end.

(** [gmResponse.roll_request?.targetClassName]. *)
Definition target_class (rr : option json) : result (option json) :=
  match rr with
  | None | Some JNull => Ok None
  | Some v => get_prop (view v) "targetClassName"
  end.

(** The choices branch's update of one player. *)
Definition choices_op (ch : jsv) (p : Player) : list BatchOp :=
  match class_label p with
  | None => []
  | Some playerClass =>
      let choicesToUpdate :=
        match find_key ch playerClass with
        | Some k => match assoc_get k (match ch with VObj fs | VPrim fs => fs | VNull => [] end) with
                    | Some v => v
                    | None => JNull
                    end
        | None => JArr [JStr "Look around"; JStr "Wait"]
        end in
      [SetChoices (p_id p) choicesToUpdate]
  end.

(** The updates collected in [batch], in the order of the source. *)
Definition reconcile_ops (room : GameRoom) (players : list Player) (resp : jsv)
  : result (list BatchOp) :=
  let! scene := get_prop resp "scene_image_prompt" in
  let ops1 := match scene with
              | Some s => if truthy s then [SetScene s] else []
              | None => []
              end in
  let! rr := get_prop resp "roll_request" in
  let! tcn := target_class rr in
  let! ops :=
    if truthy_opt tcn then
      match find (fun p => class_is p (match tcn with Some t => t | None => JNull end))
                 players, rr with
      | Some tp, Some rrv =>
          let! dt := get_prop (view rrv) "diceType" in
          let! rs := get_prop (view rrv) "reason" in
          Ok (ops1 ++
              [SetActiveRoll (mkRollRequest (p_id tp) (p_name tp)
                                (or_default dt "d20") (or_default rs "Check"))]
              ++ map (fun p => SetChoices (p_id p) JNull) players)%list
      | _, _ => Ok ops1
      end
    else
      let! ch := get_prop resp "choices" in
      match ch with
      | Some chv =>
          if truthy chv then
            Ok (ops1
                ++ (match r_activeRoll room with Some _ => [DeleteActiveRoll] | None => [] end)
                ++ flat_map (choices_op (view chv)) players)%list
          else Ok ops1
      | None => Ok ops1
      end in
  if forallb valid_op ops then Ok ops else Err FirestoreError.

Definition gm_error_text : string :=
  "(GM Error: The spirits are confused. Please try acting again.)".

(** [_triggerGmResponse].  The request sent to the narration service (the
    persona prompt, the filtered history and the trailing instruction)
    only shapes the reply, which is an input here: [reply] is [None] when
    [axios.post] rejects and [Some rawContent] otherwise. *)
Definition _triggerGmResponse (reply : option string)
  (currentChatHistory : list ChatMessage) : M unit :=
  st <- get_st ;;
  match s_room st with
  | None => ret tt
  | Some room =>
      let players := s_players st in
      set_isAiThinking true ;;
      finally
        (try_catch
           (rawContent <- match reply with
                          | Some r => ret r
                          | None => throw NetworkError
                          end ;;
            gmResponse <- lift (repair_response players rawContent) ;;
            narrative <- lift (get_prop gmResponse "narrative") ;;
            (match narrative with
             | Some n => if truthy n
                         then addMessage RAssistant n (Some "GM") None
                         else ret tt
             | None => ret tt
             end) ;;
            ops <- lift (reconcile_ops room players gmResponse) ;;
            commit ops)
           (fun _ => addMessage RSystem (JStr gm_error_text) None None))
        (set_isAiThinking false)
  end.

(* ------------------------------------------------------------------ *)
(** ** [sendMessage] *)

(** WhiteSpace and LineTerminator of ECMAScript, which [String.prototype.trim]
    and [parseInt] strip: tab, line feed, vertical tab, form feed,
    carriage return, space, U+00A0, U+1680, U+2000 to U+200A, U+2028,
    U+2029, U+202F, U+205F, U+3000 and U+FEFF. *)
Definition is_js_ws (cp : Z) : bool :=
  ((9 <=? cp) && (cp <=? 13))%Z || (cp =? 32)%Z || (cp =? 160)%Z || (cp =? 5760)%Z
  || ((8192 <=? cp) && (cp <=? 8202))%Z || (cp =? 8232)%Z || (cp =? 8233)%Z
  || (cp =? 8239)%Z || (cp =? 8287)%Z || (cp =? 12288)%Z || (cp =? 65279)%Z.

(** Each step removes at least one byte, so the length of the string is
    enough fuel. *)
Fixpoint trim_start_aux (fuel : nat) (s : string) : string :=
  match fuel with
  | O => s
  | S f =>
      match utf8_head s with
      | Some (cp, r) => if is_js_ws cp then trim_start_aux f r else s
      | None => s
      end
  end.

(** The string without its leading white space and line terminators. *)
Definition trim_start (s : string) : string := trim_start_aux (String.length s) s.

(** [prompt.trim()] is empty exactly when every character is white space
    or a line terminator, which is what [trim_start] leaves nothing of. *)
Definition trim_is_empty (s : string) : bool := String.eqb (trim_start s) "".

Definition update_player (pid : string) (f : Player -> Player) : M unit :=
  ok <- write_ok ;;
  d <- get_db ;;
  if ok && player_exists (db_players d) pid then
    put_db (mkDb (db_room d) (update_players (db_players d) pid f) (db_messages d))
  else throw FirestoreError.

Definition update_room (f : GameRoom -> GameRoom) : M unit :=
  ok <- write_ok ;;
  d <- get_db ;;
  if ok then put_db (mkDb (f (db_room d)) (db_players d) (db_messages d))
  else throw FirestoreError.

(** [me?.name || 'Player']. *)
Definition sender_name (me : option Player) : string :=
  match me with
  | Some p => if String.eqb (p_name p) "" then "Player" else p_name p
  | None => "Player"
  end.

Definition sendMessage (prompt : string) (isAction : bool) : M unit :=
  st <- get_st ;;
  match s_room st, s_playerId st with
  | Some room, Some playerId =>
      if trim_is_empty prompt then ret tt
      else
        let me := find (fun p => String.eqb (p_id p) playerId) (s_players st) in
        addMessage RUser (JStr prompt) (Some (sender_name me)) (Some isAction) ;;
        (if isAction then update_player playerId (fun p => set_choices p JNull)
         else ret tt)
  | _, _ => ret tt
  end.

(* ------------------------------------------------------------------ *)
(** ** [performRoll] *)

(** [str.replace('d', '')]: removes the first ['d'] only. *)
Fixpoint replace_first_d (s : string) : string :=
  match s with
  | EmptyString => EmptyString
  | String c r => if (c =? "d")%char then r else String c (replace_first_d r)
  end.

Definition digit_val (radix : Z) (c : ascii) : option Z :=
  let n := Z.of_nat (nat_of_ascii c) in
  let v := if ((48 <=? n) && (n <=? 57))%Z then Some (n - 48)%Z
           else if ((65 <=? n) && (n <=? 90))%Z then Some (n - 55)%Z
           else if ((97 <=? n) && (n <=? 122))%Z then Some (n - 87)%Z
           else None in
  match v with
  | Some d => if (d <? radix)%Z then Some d else None
  | None => None
  end.

(** The longest prefix of digits of the radix, as (value, digit count). *)
Fixpoint digits_value (radix acc : Z) (cnt : nat) (s : string) : Z * nat :=
  match s with
  | String c r =>
      match digit_val radix c with
      | Some d => digits_value radix (acc * radix + d)%Z (S cnt) r
      | None => (acc, cnt)
      end
  | EmptyString => (acc, cnt)
  end.

(** [parseInt(str)] without a radix; [None] is [NaN].  Leading white
    space is skipped, then one sign, then a [0x]/[0X] prefix selects
    radix 16. *)
Definition js_parseInt (str : string) : option Z :=
  let s := trim_start str in
  let '(sign, s1) := match s with
                     | String "-" r => ((-1)%Z, r)
                     | String "+" r => (1%Z, r)
                     | _ => (1%Z, s)
                     end in
  let '(radix, s2) := match s1 with
                      | String "0" (String x r) =>
                          if (x =? "x")%char || (x =? "X")%char then (16%Z, r)
                          else (10%Z, s1)
                      | _ => (10%Z, s1)
                      end in
  let '(v, cnt) := digits_value radix 0 0 s2 in
  if (cnt =? 0)%nat then None else Some (sign * v)%Z.

(** [parseInt(str)] as a number: the mathematical value rounded to the
    nearest number (F of ECMAScript); [NaN] when no digit is found. *)
Definition parseInt_num (str : string) : num :=
  match js_parseInt str with
  | Some z => to_number (inject_Z z)
  | None => NaN
  end.

(** [parseInt(rollReq.diceType.replace('d', '')) || 20]: [NaN] and [0]
    are falsy. *)
Definition faces (diceType : string) : num :=
  let v := parseInt_num (replace_first_d diceType) in
  if num_truthy v then v else Fin (inject_Z 20).

(** [Math.floor(Math.random() * max) + 1] in floating point, with the draw
    [rnd] of [Math.random()], a number in [[0, 1)]. *)
Definition roll_result (max : num) (rnd : Q) : num :=
  num_add (num_floor (num_mul (Fin rnd) max)) (Fin 1).


(** [String(v)] in a template literal: a number prints as
    Number::toString gives it, an array as [join(',')] of its elements,
    where [null] gives the empty string. *)
Fixpoint js_string (v : json) : string :=
  match v with
  | JNull => "null"
  | JBool true => "true"
  | JBool false => "false"
  | JNum l => num_to_string (number_of_lexeme l)
  | JStr s => s
  | JArr l =>
      (fix join (l : list json) : string :=
         match l with
         | [] => ""
         | [x] => match x with JNull => "" | _ => js_string x end
         | x :: r => match x with JNull => "" | _ => js_string x end ++ "," ++ join r
         end) l
  | JObj _ => "[object Object]"
  end.

Definition roll_text (reason : json) (result : num) (diceType : string) : string :=
  "[Dice Roll] " ++ js_string reason ++ ": Rolled a " ++ num_to_string result
  ++ " (" ++ diceType ++ ")".

Definition performRoll (rollReq : RollRequest) (rnd : Q) : M unit :=
  st <- get_st ;;
  match s_room st, s_playerId st with
  | Some room, Some playerId =>
      match rr_diceType rollReq with
      | JStr diceType =>
          let max := faces diceType in
          let result := roll_result max rnd in
          addMessage RUser (JStr (roll_text (rr_reason rollReq) result diceType))
                     (Some "System") (Some true) ;;
          update_room (fun r => set_activeRoll r None)
      | _ => throw TypeError
      end
  | _, _ => ret tt
  end.

(* ------------------------------------------------------------------ *)
(** ** The chat-log subscription of [joinRoom] *)

(** [msgs[msgs.length - 1]]. *)
Definition lastMsg (msgs : list ChatMessage) : option ChatMessage :=
  match msgs with
  | [] => None
  | m :: _ => Some (last msgs m)
  end.

Definition opt_string_eqb (a b : option string) : bool :=
  match a, b with
  | Some x, Some y => String.eqb x y
  | None, None => true
  | _, _ => false
  end.

(** The condition of the [onSnapshot] callback on [messages]: the id of the
    message to handle when a turn starts. *)
Definition trigger_guard (s : Session) (msgs : list ChatMessage) : option string :=
  match lastMsg msgs, s_room s with
  | Some lm, Some room =>
      match m_role lm, m_isAction lm, r_activeRoll room with
      | RUser, Some true, None =>
          if opt_string_eqb (Some (r_hostId room)) (s_playerId s)
             && negb (s_isAiThinking s)
             && negb (opt_string_eqb (Some (m_id lm)) (s_lastHandledMessageId s))
          then Some (m_id lm) else None
      | _, _, _ => None
      end
  | _, _ => None
  end.

(** What reaches a session: the three subscriptions, the end of a turn
    ([finally { set({ isAiThinking: false }) }]), [startGame]'s direct
    call of [_triggerGmResponse([])], [cleanup], and sign-in changes. *)
Inductive Event : Type :=
| EvMessages (msgs : list ChatMessage)
| EvRoom (r : option GameRoom)
| EvPlayers (ps : list Player)
| EvTurnSettled
| EvStartGame
| EvCleanup
| EvAuth (pid : option string).

Definition with_room (s : Session) (r : option GameRoom) : Session :=
  mkSession r (s_players s) (s_chatHistory s) (s_playerId s) (s_isAiThinking s)
            (s_lastHandledMessageId s).

Definition with_thinking (s : Session) (b : bool) : Session :=
  mkSession (s_room s) (s_players s) (s_chatHistory s) (s_playerId s) b
            (s_lastHandledMessageId s).

(** One callback; the second component is the message id a turn was
    started for.  Starting a turn sets [isAiThinking] before its first
    [await]. *)
Definition session_step (s : Session) (e : Event) : Session * option string :=
  match e with
  | EvMessages msgs =>
      let s1 := mkSession (s_room s) (s_players s) msgs (s_playerId s)
                          (s_isAiThinking s) (s_lastHandledMessageId s) in
      match trigger_guard s1 msgs with
      | Some id =>
          (mkSession (s_room s1) (s_players s1) msgs (s_playerId s1) true (Some id),
           Some id)
      | None => (s1, None)
      end
  | EvRoom r => (with_room s r, None)
  | EvPlayers ps =>
      (mkSession (s_room s) ps (s_chatHistory s) (s_playerId s) (s_isAiThinking s)
                 (s_lastHandledMessageId s), None)
  | EvTurnSettled => (with_thinking s false, None)
  | EvStartGame =>
      match s_room s with
      | Some _ => (with_thinking s true, None)
      | None => (s, None)
      end
  | EvCleanup =>
      (mkSession None [] [] (s_playerId s) (s_isAiThinking s)
                 (s_lastHandledMessageId s), None)
  | EvAuth pid =>
      (mkSession (s_room s) (s_players s) (s_chatHistory s) pid (s_isAiThinking s)
                 (s_lastHandledMessageId s), None)
  end.

(** The ids of the turns started along a sequence of events. *)
Fixpoint run_session (s : Session) (evs : list Event) : Session * list string :=
  match evs with
  | [] => (s, [])
  | e :: r =>
      let '(s1, f) := session_step s e in
      let '(s2, fs) := run_session s1 r in
      (s2, match f with Some id => id :: fs | None => fs end)
  end.

Fixpoint chat_snapshots (evs : list Event) : list (list ChatMessage) :=
  match evs with
  | [] => []
  | EvMessages msgs :: r => msgs :: chat_snapshots r
  | _ :: r => chat_snapshots r
  end.

Definition is_prefix {A} (l1 l2 : list A) : Prop := exists t, l2 = (l1 ++ t)%list.

(** The append-only log: every snapshot extends the previous one. *)
Fixpoint append_only (ls : list (list ChatMessage)) : Prop :=
  match ls with
  | [] => True
  | l1 :: r =>
      match r with
      | [] => True
      | l2 :: _ => is_prefix l1 l2 /\ append_only r
      end
  end.

Definition ids (msgs : list ChatMessage) : list string := map m_id msgs.

(* ------------------------------------------------------------------ *)
(** ** The other store actions that write to the room *)

Definition setReadyState (isReady : bool) : M unit :=
  st <- get_st ;;
  match s_room st, s_playerId st with
  | Some room, Some playerId =>
      update_player playerId
        (fun p => mkPlayer (p_id p) (p_name p) (p_avatar p) (p_characterClass p)
                           (p_stats p) isReady (p_choices p))
  | _, _ => ret tt
  end.

(** [charData: Omit<Player, 'id' | 'isReady' | 'choices'>]; its [stats]
    are overwritten by the random ones. *)
Record CharData : Type := mkCharData {
  cd_name : string;
  cd_avatar : option string;
  cd_characterClass : option string
}.

(** [setDoc] of a player document: replaces it or creates it. *)
Definition set_player_doc (p : Player) : M unit :=
  ok <- write_ok ;;
  d <- get_db ;;
  if ok then
    let ps := if player_exists (db_players d) (p_id p)
              then update_players (db_players d) (p_id p) (fun _ => p)
              else (db_players d ++ [p])%list in
    put_db (mkDb (db_room d) ps (db_messages d))
  else throw FirestoreError.

(** [createCharacter]; [stats] stands for the six [Math.random] draws. *)
Definition createCharacter (charData : CharData) (stats : list (string * Z)) : M unit :=
  st <- get_st ;;
  match s_room st, s_playerId st with
  | Some room, Some playerId =>
      let known := player_exists (s_players st) playerId in
      if (4 <=? length (s_players st))%nat && negb known then ret tt
      else
        let newPlayer := mkPlayer playerId (cd_name charData) (cd_avatar charData)
                           (cd_characterClass charData) stats false (Some JNull) in
        set_player_doc newPlayer ;;
        (if known then ret tt
         else addMessage RSystem
                (JStr (cd_name charData ++ " ("
                       ++ match cd_characterClass charData with
                          | Some c => c
                          | None => "undefined"
                          end ++ ") has joined."))
                None None)
  | _, _ => ret tt
  end.

Definition set_status (r : GameRoom) (g : GameStatus) : GameRoom :=
  mkGameRoom (r_id r) (r_hostId r) g (r_activeRoll r) (r_currentScene r).

(** [startGame]: the turn it starts is not awaited; [reply] is what the
    narration service answers to it. *)
Definition startGame (reply : option string) : M unit :=
  st <- get_st ;;
  match s_room st with
  | Some room =>
      update_room (fun r => set_status r Playing) ;;
      _triggerGmResponse reply []
  | None => ret tt
  end.

(** Every store action that writes to the room's documents. *)
Inductive StoreAction : Type :=
| ATurn (reply : option string) (hist : list ChatMessage)
| ASend (prompt : string) (isAction : bool)
| ARoll (rollReq : RollRequest) (rnd : Q)
| AReady (isReady : bool)
| ACreate (charData : CharData) (stats : list (string * Z))
| AStart (reply : option string).

Definition run_action (a : StoreAction) : M unit :=
  match a with
  | ATurn reply hist => _triggerGmResponse reply hist
  | ASend prompt isAction => sendMessage prompt isAction
  | ARoll rollReq rnd => performRoll rollReq rnd
  | AReady b => setReadyState b
  | ACreate cd stats => createCharacter cd stats
  | AStart reply => startGame reply
  end.

(* ------------------------------------------------------------------ *)
(** ** The older copy of the store (the second [useGameStore] of the file) *)

(** Its turn has no repair and no roll reconciliation: [JSON.parse] falls
    back to the raw text as the narrative, and a player's choices are
    looked up under the exact class name.  Its [isLoading] flag, which
    guards its turns as [isAiThinking] does in the current store, is the
    session's busy flag [s_isAiThinking] here. *)
Definition legacy_gm_error_text : string :=
  "(GM Error: Failed to generate valid response)".

(** [try { gmResponse = JSON.parse(content) } catch (e) { gmResponse = { narrative: content } }]. *)
Definition legacy_parse (raw : string) : json :=
  match json_parse raw with
  | Some v => v
  | None => JObj [("narrative", JStr raw)]
  end.

(** [players.forEach(player => { if (player.characterClass &&
    gmResponse.choices[player.characterClass]) batch.update(...) })]. *)
Fixpoint legacy_choices_ops (ch : jsv) (players : list Player) : result (list BatchOp) :=
  match players with
  | [] => Ok []
  | p :: r =>
      let! here :=
        match class_label p with
        | None => Ok []
        | Some cls =>
            let! v := get_prop ch cls in
            match v with
            | Some c => if truthy c then Ok [SetChoices (p_id p) c] else Ok []
            | None => Ok []
            end
        end in
      let! rest := legacy_choices_ops ch r in
      Ok (here ++ rest)%list
  end.

(** The body of the [try] block of the older [_triggerGmResponse]. *)
Definition legacy_turn_body (players : list Player) (reply : option string) : M unit :=
  rawContent <- match reply with
                | Some r => ret r
                | None => throw NetworkError
                end ;;
  let gmResponse := view (legacy_parse rawContent) in
  narrative <- lift (get_prop gmResponse "narrative") ;;
  (match narrative with
   | Some n => if truthy n then addMessage RAssistant n (Some "GM") None else ret tt
   | None => ret tt
   end) ;;
  ch <- lift (get_prop gmResponse "choices") ;;
  match ch with
  | Some chv =>
      if truthy chv then
        ops <- lift (legacy_choices_ops (view chv) players) ;;
        if forallb valid_op ops then commit ops else throw FirestoreError
      else ret tt
  | None => ret tt
  end.

(** The older [_triggerGmResponse]. *)
Definition legacy_triggerGmResponse (reply : option string)
  (currentChatHistory : list ChatMessage) : M unit :=
  st <- get_st ;;
  match s_room st with
  | None => ret tt
  | Some room =>
      let players := s_players st in
      set_isAiThinking true ;;
      finally
        (try_catch (legacy_turn_body players reply)
           (fun _ => addMessage RSystem (JStr legacy_gm_error_text) None None))
        (set_isAiThinking false)
  end.
(* ------------------------------------------------------------------ *)
(** ** Predicates used by the properties *)

(** The room document and the player documents, the part of the store a
    reconciliation batch writes. *)
Definition rp (d : Db) : GameRoom * list Player := (db_room d, db_players d).

(** A computation that leaves the room and player documents as they are
    (it may append chat messages and change the session). *)
Definition keeps_rp {A} (m : M A) : Prop :=
  forall w, rp (w_db (snd (m w))) = rp (w_db w).

(** [choices] empty or unset: absent, [null] or [[]]. *)
Definition choices_empty (c : option json) : bool :=
  match c with
  | None | Some JNull | Some (JArr []) => true
  | _ => false
  end.

(** The room invariant: an active roll excludes populated choice lists. *)
Definition roll_excludes_choices (d : Db) : Prop :=
  r_activeRoll (db_room d) = None \/
  Forall (fun p => choices_empty (p_choices p) = true) (db_players d).

(** The value the repair leaves under a choices key, from the value the
    key had in the reply: a list of fewer than two entries is padded, any
    other value is kept, and a key the repair creates holds a padded empty
    list. *)
Definition repaired_value (o : option json) : json :=
  match o with
  | Some (JArr l) => if (length l <? 2)%nat then JArr (pad_choices l) else JArr l
  | Some v => v
  | None => JArr (pad_choices [])
  end.

(** After the repair, the choices object [fs] has a key matching [cls]
    case-insensitively, holding the repaired value of that key in the
    reply's choices object [fs0]. *)
Definition repaired_entry (fs0 fs : list (string * json)) (cls : string) : Prop :=
  exists k, find_key (VObj fs) cls = Some k /\
            assoc_get k fs = Some (repaired_value (assoc_get k fs0)).

(** The double quote, to write JSON texts as strings. *)
Definition dq : string := String (ascii_of_nat 34) EmptyString.

(** A JSON string literal. *)
Definition jq (s : string) : string := dq ++ s ++ dq.

(** A reply whose choice list for the Fighter has two equal entries. *)
Definition reply_dup_choices : string :=
  "{" ++ jq "choices" ++ ":{" ++ jq "Fighter" ++ ":[" ++ jq "a" ++ "," ++ jq "a" ++ "]}}".

(** Whether the character [c] occurs in [s]. *)
Fixpoint has_char (c : ascii) (s : string) : bool :=
  match s with
  | EmptyString => false
  | String d r => (d =? c)%char || has_char c r
  end.

(** Two JSON objects one after the other: the greedy match spans both. *)
Definition reply_two_objects : string :=
  "{" ++ jq "a" ++ ":1} {" ++ jq "b" ++ ":2}".




(** A computation that keeps the roll/choices invariant of the store. *)
Definition keeps_inv {A} (m : M A) : Prop :=
  forall w, roll_excludes_choices (w_db w) -> roll_excludes_choices (w_db (snd (m w))).

(** The session's snapshots agree with the stored documents on what a
    reconciliation reads: the room's [activeRoll] and the players. *)
Definition synced (w : World) : Prop :=
  (forall room, s_room (w_st w) = Some room ->
                r_activeRoll room = r_activeRoll (db_room (w_db w))) /\
  s_players (w_st w) = db_players (w_db w).

Definition is_scene (op : BatchOp) : bool :=
  match op with SetScene _ => true | _ => false end.

Definition touches_roll (op : BatchOp) : bool :=
  match op with SetActiveRoll _ | DeleteActiveRoll => true | _ => false end.

(** The memo [lastHandledMessageId] against the turns started so far
    ([F]) and the latest snapshot [L]: the started ids are distinct, all
    in [L], and all but the memo sit before the last message of [L]. *)
Definition guard_inv (memo : option string) (F : list string) (L : list ChatMessage)
  : Prop :=
  NoDup F /\ incl F (ids L) /\
  (forall y, In y F -> memo <> Some y -> In y (ids (removelast L))).

(** The body of the [try] block of [_triggerGmResponse]. *)
Definition turn_body (room : GameRoom) (players : list Player) (reply : option string)
  : M unit :=
  rawContent <- match reply with
                | Some r => ret r
                | None => throw NetworkError
                end ;;
  gmResponse <- lift (repair_response players rawContent) ;;
  narrative <- lift (get_prop gmResponse "narrative") ;;
  (match narrative with
   | Some n => if truthy n then addMessage RAssistant n (Some "GM") None else ret tt
   | None => ret tt
   end) ;;
  ops <- lift (reconcile_ops room players gmResponse) ;;
  commit ops.

(** How the choices object [fs] being repaired relates to the reply's
    [fs0]: every key holds its value of the reply or its repaired value,
    and the keys of the reply are still found. *)
Definition repair_inv (fs0 fs : list (string * json)) : Prop :=
  (forall k, assoc_get k fs = assoc_get k fs0 \/
             assoc_get k fs = Some (repaired_value (assoc_get k fs0))) /\
  (forall cl k, find_key (VObj fs0) cl = Some k -> find_key (VObj fs) cl = Some k).

(* ------------------------------------------------------------------ *)
(** ** Concrete inputs for the examples *)

Definition room0 : GameRoom := mkGameRoom "r1" "host" Playing None (Some (JStr "map")).

Definition msgA : ChatMessage :=
  mkChatMessage "m0" RUser (JStr "I attack") (Some "Ann") (Some true).

Definition db0 : Db := mkDb room0 [fighter] [msgA].

Definition st0 : Session := mkSession (Some room0) [fighter] [msgA] (Some "host") false None.

(** A session in step with [db0]; [faults] decides the Firestore writes. *)
Definition world0 (faults : list bool) : World := mkWorld db0 st0 faults.

Definition reply_choices : string :=
  "{" ++ jq "narrative" ++ ":" ++ jq "x" ++ "," ++ jq "scene_image_prompt" ++ ":"
  ++ jq "cave" ++ "," ++ jq "choices" ++ ":{" ++ jq "Fighter" ++ ":["
  ++ jq "a" ++ "," ++ jq "b" ++ "]}}".

Definition reply_roll : string :=
  "{" ++ jq "narrative" ++ ":" ++ jq "y" ++ "," ++ jq "roll_request" ++ ":{"
  ++ jq "targetClassName" ++ ":" ++ jq "Fighter" ++ "," ++ jq "diceType" ++ ":"
  ++ jq "d20" ++ "," ++ jq "reason" ++ ":" ++ jq "Trap" ++ "}}".

Definition reply_roll_unresolved : string :=
  "{" ++ jq "narrative" ++ ":" ++ jq "z" ++ "," ++ jq "roll_request" ++ ":{"
  ++ jq "targetClassName" ++ ":" ++ jq "Bard" ++ "," ++ jq "diceType" ++ ":"
  ++ jq "d20" ++ "}," ++ jq "choices" ++ ":{" ++ jq "Fighter" ++ ":["
  ++ jq "a" ++ "," ++ jq "b" ++ "]}}".

(** The reply of the specification's example, with text around the object. *)
Definition reply_spec_example : string :=
  "blah {" ++ jq "narrative" ++ ":" ++ jq "x" ++ "," ++ jq "choices" ++ ":{"
  ++ jq "Fighter" ++ ":[" ++ jq "a" ++ "]}} blah".

(* ------------------------------------------------------------------ *)
(** ** What the other store actions write *)

(** What a computation may change of the room document: [R] relates the
    room before to the room after. *)
Definition keeps_room_by {A} (R : GameRoom -> GameRoom -> Prop) (m : M A) : Prop :=
  forall w, R (db_room (w_db w)) (db_room (w_db (snd (m w)))).

(** The room keeps its id and its host. *)
Definition same_identity (r r' : GameRoom) : Prop :=
  r_id r' = r_id r /\ r_hostId r' = r_hostId r.

(** The room keeps its id, its host and its status. *)
Definition same_identity_status (r r' : GameRoom) : Prop :=
  same_identity r r' /\ r_gameStatus r' = r_gameStatus r.

(** [updateDoc(playerRef, { isReady })] seen on one player document:
    [p] before, [q] after. *)
Definition only_ready_changed (pid : string) (b : bool) (p q : Player) : Prop :=
  p_id q = p_id p /\ p_name q = p_name p /\ p_avatar q = p_avatar p /\
  p_characterClass q = p_characterClass p /\ p_stats q = p_stats p /\
  p_choices q = p_choices p /\
  p_isReady q = (if String.eqb (p_id p) pid then b else p_isReady p).

(** The document [createCharacter] writes for the caller [pid]. *)
Definition new_player_doc (pid : string) (cd : CharData) (stats : list (string * Z))
  : Player :=
  mkPlayer pid (cd_name cd) (cd_avatar cd) (cd_characterClass cd) stats false (Some JNull).

(** [`${newPlayer.name} (${newPlayer.characterClass}) has joined.`]. *)
Definition join_text (cd : CharData) : string :=
  cd_name cd ++ " ("
  ++ match cd_characterClass cd with Some c => c | None => "undefined" end
  ++ ") has joined.".

(** A player of a given class whose id is also its name. *)
Definition mkp (id cls : string) : Player := mkPlayer id id None (Some cls) [] false None.

Definition party4 : list Player :=
  [mkp "p1" "Fighter"; mkp "p2" "Wizard"; mkp "p3" "Rogue"; mkp "p4" "Cleric"].

(** A store with four players, seen by a fifth user through a player
    list that misses the fourth. *)
Definition world_stale : World :=
  mkWorld (mkDb room0 party4 [msgA])
          (mkSession (Some room0) (firstn 3 party4) [msgA] (Some "p5") false None) [].

(** The session of the Fighter [p1], in step with [db0]. *)
Definition st_p1 : Session := mkSession (Some room0) [fighter] [msgA] (Some "p1") false None.

Definition cd_bard : CharData := mkCharData "Bo" None (Some "Bard").

(** A room waiting for the Fighter's roll. *)
Definition rr_trap : RollRequest := mkRollRequest "p1" "Ann" (JStr "d6") (JStr "Trap").

Definition room_pending : GameRoom := set_activeRoll room0 (Some rr_trap).

(** The Fighter's session in that room. *)
Definition world_pending (faults : list bool) : World :=
  mkWorld (mkDb room_pending [fighter] [msgA])
          (mkSession (Some room_pending) [fighter] [msgA] (Some "p1") false None) faults.

(* ================================================================== *)
(** * Properties *)

(* ------------------------------------------------------------------ *)
(** ** The trigger guard: one turn per message id *)

Section TriggerGuard.

Lemma removelast_incl {A} (l : list A) : incl (removelast l) l.
Proof.
  induction l as [|a r IH]; simpl; [intros x Hx; exact Hx|].
  destruct r as [|b r']; intros x Hx; [contradiction|].
  destruct Hx as [<-|Hx]; [left; reflexivity|right; apply IH, Hx].
Qed.

Lemma prefix_ids_incl (L L' : list ChatMessage) :
  is_prefix L L' -> incl (ids L) (ids L').
Proof.
  intros [t ->] x Hx. unfold ids. rewrite map_app. apply in_or_app. left; exact Hx.
Qed.

Lemma prefix_removelast_incl (L L' : list ChatMessage) :
  is_prefix L L' -> incl (ids (removelast L)) (ids (removelast L')).
Proof.
  intros [t ->] x Hx. unfold ids in *.
  destruct t as [|a t'].
  - rewrite app_nil_r. exact Hx.
  - rewrite removelast_app by discriminate. rewrite map_app. apply in_or_app. left.
    apply in_map_iff in Hx. destruct Hx as [m [Hm Hin]].
    apply in_map_iff. exists m. split; [exact Hm|]. apply removelast_incl, Hin.
Qed.

Lemma lastMsg_split (l : list ChatMessage) (m : ChatMessage) :
  lastMsg l = Some m -> l = (removelast l ++ [m])%list.
Proof.
  unfold lastMsg. destruct l as [|a r]; [discriminate|]. intros H. injection H as <-.
  exact (@app_removelast_last _ (a :: r) a ltac:(discriminate)).
Qed.


Lemma guard_inv_extend memo F L L' :
  guard_inv memo F L -> is_prefix L L' -> guard_inv memo F L'.
Proof.
  intros [Hnd [Hin Hold]] Hp. split; [exact Hnd|]. split.
  - intros y Hy. apply (prefix_ids_incl L L' Hp), Hin, Hy.
  - intros y Hy Hne. apply (prefix_removelast_incl L L' Hp), Hold; assumption.
Qed.

Lemma opt_string_eqb_refl (a : option string) : opt_string_eqb a a = true.
Proof. destruct a; simpl; [apply String.eqb_refl|reflexivity]. Qed.

Lemma opt_string_eqb_false (a b : option string) :
  opt_string_eqb a b = false -> a <> b.
Proof. intros H ->. rewrite opt_string_eqb_refl in H. discriminate. Qed.

Lemma guard_inv_fire memo F L L' lm :
  guard_inv memo F L -> is_prefix L L' -> NoDup (ids L') ->
  lastMsg L' = Some lm -> memo <> Some (m_id lm) ->
  guard_inv (Some (m_id lm)) (F ++ [m_id lm])%list L'.
Proof.
  intros Hinv Hp Hnd Hlast Hne.
  destruct (guard_inv_extend _ _ _ _ Hinv Hp) as [HF [Hin Hold]].
  pose proof (lastMsg_split _ _ Hlast) as Hsplit.
  assert (Hnot : ~ In (m_id lm) (ids (removelast L'))).
  { rewrite Hsplit in Hnd. unfold ids in Hnd. rewrite map_app in Hnd. simpl in Hnd.
    intros Hx. apply (NoDup_remove_2 _ [] _ Hnd). rewrite app_nil_r.
    exact Hx. }
  split; [|split].
  - apply NoDup_app; [exact HF|constructor; [intros []|constructor]|].
    intros y Hy [Heq|[]]. subst y.
    apply Hnot, Hold; assumption.
  - intros y Hy. apply in_app_or in Hy. destruct Hy as [Hy|[<-|[]]]; [apply Hin, Hy|].
    rewrite Hsplit. unfold ids. rewrite map_app. apply in_or_app. right. left. reflexivity.
  - intros y Hy Hney. apply in_app_or in Hy. destruct Hy as [Hy|[<-|[]]].
    + pose proof (Hin y Hy) as HyL. rewrite Hsplit in HyL. unfold ids in HyL.
      rewrite map_app in HyL. apply in_app_or in HyL.
      destruct HyL as [HyL|[Heq|[]]].
      * exact HyL.
      * simpl in Heq. subst. contradiction.
    + contradiction.
Qed.

Lemma trigger_guard_fires (s : Session) (msgs : list ChatMessage) (id : string) :
  trigger_guard s msgs = Some id ->
  exists lm, lastMsg msgs = Some lm /\ id = m_id lm /\
             s_lastHandledMessageId s <> Some id.
Proof.
  unfold trigger_guard.
  destruct (lastMsg msgs) as [lm|]; [|discriminate].
  destruct (s_room s) as [room|]; [|discriminate].
  destruct (m_role lm); try discriminate.
  destruct (m_isAction lm) as [[|]|]; try discriminate.
  destruct (r_activeRoll room); [discriminate|].
  destruct (opt_string_eqb (Some (r_hostId room)) (s_playerId s)); [|discriminate].
  destruct (s_isAiThinking s); [discriminate|].
  destruct (opt_string_eqb (Some (m_id lm)) (s_lastHandledMessageId s)) eqn:E;
    simpl; [discriminate|].
  intros H. injection H as <-. exists lm. split; [reflexivity|]. split; [reflexivity|].
  intros Heq. apply (opt_string_eqb_false _ _ E). symmetry. exact Heq.
Qed.

Lemma run_session_inv (evs : list Event) :
  forall s F L,
    guard_inv (s_lastHandledMessageId s) F L ->
    append_only (L :: chat_snapshots evs) ->
    Forall (fun l => NoDup (ids l)) (chat_snapshots evs) ->
    NoDup (F ++ snd (run_session s evs))%list.
Proof.
  induction evs as [|e r IH]; intros s F L Hinv Hchain Hnd.
  - simpl. rewrite app_nil_r. apply Hinv.
  - destruct e as [msgs|room|ps| | | |pid]; simpl in Hchain, Hnd |- *.
    + destruct Hchain as [Hp Hchain]. inversion Hnd as [|? ? Hndm Hndr]; subst.
      destruct (trigger_guard _ msgs) as [id|] eqn:Hg.
      * destruct (trigger_guard_fires _ _ _ Hg) as [lm [Hlm [-> Hne]]].
        destruct (run_session _ r) as [s2 fs] eqn:Hrun. simpl.
        replace (F ++ m_id lm :: fs)%list with ((F ++ [m_id lm]) ++ fs)%list
          by (rewrite <- app_assoc; reflexivity).
        change fs with (snd (s2, fs)). rewrite <- Hrun.
        apply (IH _ _ msgs); [|exact Hchain|exact Hndr].
        exact (guard_inv_fire (s_lastHandledMessageId s) F L msgs lm Hinv Hp Hndm Hlm Hne).
      * destruct (run_session _ r) as [s2 fs] eqn:Hrun. simpl.
        change fs with (snd (s2, fs)). rewrite <- Hrun.
        apply (IH _ _ msgs); [|exact Hchain|exact Hndr].
        exact (guard_inv_extend (s_lastHandledMessageId s) F L msgs Hinv Hp).
    + destruct (run_session _ r) as [s2 fs] eqn:Hrun. simpl.
      change fs with (snd (s2, fs)). rewrite <- Hrun. apply (IH _ _ L); assumption.
    + destruct (run_session _ r) as [s2 fs] eqn:Hrun. simpl.
      change fs with (snd (s2, fs)). rewrite <- Hrun. apply (IH _ _ L); assumption.
    + destruct (run_session _ r) as [s2 fs] eqn:Hrun. simpl.
      change fs with (snd (s2, fs)). rewrite <- Hrun. apply (IH _ _ L); assumption.
    + destruct (s_room s); simpl;
      destruct (run_session _ r) as [s2 fs] eqn:Hrun; simpl;
      change fs with (snd (s2, fs)); rewrite <- Hrun; apply (IH _ _ L); assumption.
    + destruct (run_session _ r) as [s2 fs] eqn:Hrun. simpl.
      change fs with (snd (s2, fs)). rewrite <- Hrun. apply (IH _ _ L); assumption.
    + destruct (run_session _ r) as [s2 fs] eqn:Hrun. simpl.
      change fs with (snd (s2, fs)). rewrite <- Hrun. apply (IH _ _ L); assumption.
Qed.

End TriggerGuard.

(** C3: along every sequence of callbacks in which each chat-log snapshot
    extends the previous one (append-only log) and message ids are
    distinct, the chat-log callback of [joinRoom] starts a turn for a
    given message id at most once: the list of ids turns were started for
    has no duplicate, whatever the other events and the starting state. *)
Theorem trigger_once_per_message (s0 : Session) (evs : list Event) :
  append_only (chat_snapshots evs) ->
  Forall (fun l => NoDup (ids l)) (chat_snapshots evs) ->
  NoDup (snd (run_session s0 evs)).
Proof.
  intros Hchain Hnd.
  change (snd (run_session s0 evs)) with ([] ++ snd (run_session s0 evs))%list.
  apply (run_session_inv evs s0 [] []); [|simpl|exact Hnd].
  - split; [constructor|]. split; [intros x []|intros y []].
  - destruct (chat_snapshots evs) as [|l r]; [exact I|]. split; [|exact Hchain].
    exists l. reflexivity.
Qed.

Lemma trigger_once_per_message_witness :
  snd (run_session st0 [EvMessages [msgA]; EvTurnSettled; EvMessages [msgA]]) = ["m0"] /\
  NoDup (snd (run_session st0 [EvMessages [msgA]; EvTurnSettled; EvMessages [msgA]])).
Proof.
  split; [vm_compute; reflexivity|].
  apply trigger_once_per_message.
  - simpl. split; [exists []; reflexivity|exact I].
  - repeat constructor; intros [].
Defined.

(* ------------------------------------------------------------------ *)
(** ** Effects of a turn on the room and player documents *)

Section TurnEffects.

Lemma keeps_ret {A} (a : A) : keeps_rp (ret a).
Proof. intros w; reflexivity. Qed.

Lemma keeps_throw {A} (e : exn) : keeps_rp (@throw A e).
Proof. intros w; reflexivity. Qed.

Lemma keeps_lift {A} (r : result A) : keeps_rp (lift r).
Proof. intros w; reflexivity. Qed.

Lemma keeps_bind {A B} (m : M A) (f : A -> M B) :
  keeps_rp m -> (forall a, keeps_rp (f a)) -> keeps_rp (bind m f).
Proof.
  intros Hm Hf w. unfold bind. specialize (Hm w).
  destruct (m w) as [[a|e] w1]; simpl in *; [rewrite Hf|]; exact Hm.
Qed.

Lemma keeps_set_isAiThinking b : keeps_rp (set_isAiThinking b).
Proof. intros w; reflexivity. Qed.

Lemma keeps_addMessage r c sn a : keeps_rp (addMessage r c sn a).
Proof.
  intros w. unfold addMessage, check_fs. destruct (fs_valid c); [|reflexivity].
  unfold bind, ret, write_ok. simpl.
  destruct (w_faults w) as [|[|] f]; reflexivity.
Qed.

Lemma set_isAiThinking_db b w :
  set_isAiThinking b w =
  (Ok tt, mkWorld (w_db w) (with_thinking (w_st w) b) (w_faults w)).
Proof. reflexivity. Qed.

Lemma apply_op_rp (d1 d2 : Db) (op : BatchOp) :
  rp d1 = rp d2 -> rp (apply_op d1 op) = rp (apply_op d2 op).
Proof.
  unfold rp. intros H. injection H as Hr Hp.
  destruct op; simpl; rewrite Hr, Hp; reflexivity.
Qed.

Lemma fold_apply_rp (ops : list BatchOp) :
  forall d1 d2, rp d1 = rp d2 ->
  rp (fold_left apply_op ops d1) = rp (fold_left apply_op ops d2).
Proof.
  induction ops as [|op r IH]; intros d1 d2 H; simpl; [exact H|].
  apply IH, apply_op_rp, H.
Qed.

(** [batch.commit()] writes every update of the batch or none. *)
Lemma commit_all_or_none (ops : list BatchOp) (w : World) :
  (fst (commit ops w) = Ok tt /\
   w_db (snd (commit ops w)) = fold_left apply_op ops (w_db w)) \/
  (fst (commit ops w) = Err FirestoreError /\ w_db (snd (commit ops w)) = w_db w).
Proof.
  unfold commit, bind, write_ok, get_db, put_db, throw.
  destruct (w_faults w) as [|b f]; simpl.
  - destruct (forallb (op_target_ok (w_db w)) ops); simpl; [left|right]; auto.
  - destruct (b && forallb (op_target_ok (w_db w)) ops); simpl; [left|right]; auto.
Qed.


Lemma trigger_unfold reply hist w room :
  s_room (w_st w) = Some room ->
  _triggerGmResponse reply hist w =
  finally (try_catch (turn_body room (s_players (w_st w)) reply)
             (fun _ => addMessage RSystem (JStr gm_error_text) None None))
          (set_isAiThinking false)
          (mkWorld (w_db w) (with_thinking (w_st w) true) (w_faults w)).
Proof.
  intros Hr. unfold _triggerGmResponse, bind at 1, get_st. rewrite Hr.
  reflexivity.
Qed.

(** The batch of a turn is applied whole or not at all; everything else
    the body does leaves the room and player documents alone. *)
Lemma turn_body_rp room players reply w :
  rp (w_db (snd (turn_body room players reply w))) = rp (w_db w) \/
  exists raw resp ops,
    reply = Some raw /\ repair_response players raw = Ok resp /\
    reconcile_ops room players resp = Ok ops /\
    fst (turn_body room players reply w) = Ok tt /\
    rp (w_db (snd (turn_body room players reply w)))
    = rp (fold_left apply_op ops (w_db w)).
Proof.
  destruct reply as [raw|]; [|left; reflexivity].
  unfold turn_body, bind, lift. simpl.
  destruct (repair_response players raw) as [resp|e] eqn:Hrep; [|left; reflexivity].
  destruct (get_prop resp "narrative") as [nar|e]; [|left; reflexivity].
  set (narr := match nar with
               | Some n => if truthy n then addMessage RAssistant n (Some "GM") None
                           else ret tt
               | None => ret tt
               end).
  assert (Hk : keeps_rp narr).
  { unfold narr. destruct nar as [n|]; [destruct (truthy n)|];
      [apply keeps_addMessage|apply keeps_ret|apply keeps_ret]. }
  specialize (Hk w).
  destruct (narr w) as [[[]|e] w1]; simpl in Hk |- *; [|left; exact Hk].
  destruct (reconcile_ops room players resp) as [ops|e] eqn:Hops; [|left; exact Hk].
  destruct (commit_all_or_none ops w1) as [[Hok Hdb]|[Herr Hdb]].
  - right. exists raw, resp, ops. split; [reflexivity|]. split; [exact Hrep|].
    split; [exact Hops|]. split; [exact Hok|].
    rewrite Hdb. apply fold_apply_rp, Hk.
  - left. rewrite Hdb. exact Hk.
Qed.

Lemma trigger_rp_cases reply hist w :
  rp (w_db (snd (_triggerGmResponse reply hist w))) = rp (w_db w) \/
  exists room raw resp ops,
    s_room (w_st w) = Some room /\ reply = Some raw /\
    repair_response (s_players (w_st w)) raw = Ok resp /\
    reconcile_ops room (s_players (w_st w)) resp = Ok ops /\
    rp (w_db (snd (_triggerGmResponse reply hist w)))
    = rp (fold_left apply_op ops (w_db w)).
Proof.
  destruct (s_room (w_st w)) as [room|] eqn:Hr.
  - rewrite (trigger_unfold reply hist w room Hr).
    set (w0 := mkWorld (w_db w) (with_thinking (w_st w) true) (w_faults w)).
    destruct (turn_body_rp room (s_players (w_st w)) reply w0) as [Hk|Happ];
    unfold finally, try_catch;
    destruct (turn_body room (s_players (w_st w)) reply w0) as [[[]|e] w1] eqn:Hb;
    simpl in *.
    + left. exact Hk.
    + left. pose proof (keeps_addMessage RSystem (JStr gm_error_text) None None w1) as H.
      destruct (addMessage RSystem (JStr gm_error_text) None None w1) as [[[]|e'] w2];
        simpl in *; rewrite H; exact Hk.
    + right. destruct Happ as [raw [resp [ops [Hraw [Hrep [Hops [_ Hrp]]]]]]].
      exists room, raw, resp, ops. repeat split; assumption.
    + destruct Happ as [raw [resp [ops [_ [_ [_ [Hok _]]]]]]]. discriminate.
  - left. unfold _triggerGmResponse, bind, get_st. rewrite Hr. reflexivity.
Qed.

End TurnEffects.

(* ------------------------------------------------------------------ *)
(** ** C1: what a reconciliation commits together *)

(** C1 (amended): the updates of the room and player documents of one
    turn ([currentScene], [activeRoll], every player's [choices]) are
    committed together or not at all: afterwards the room and players are
    either exactly as before, or exactly the result of applying the whole
    batch the reconciliation built from the repaired reply.  The narrative
    message is not part of this batch. *)
Theorem reconcile_batch_atomic (reply : option string) (hist : list ChatMessage)
  (w : World) :
  rp (w_db (snd (_triggerGmResponse reply hist w))) = rp (w_db w) \/
  exists room raw resp ops,
    s_room (w_st w) = Some room /\ reply = Some raw /\
    repair_response (s_players (w_st w)) raw = Ok resp /\
    reconcile_ops room (s_players (w_st w)) resp = Ok ops /\
    rp (w_db (snd (_triggerGmResponse reply hist w)))
    = rp (fold_left apply_op ops (w_db w)).
Proof. apply trigger_rp_cases. Qed.

(** C1 (counterexample): the narrative message is appended first, by its
    own [addDoc]; when the batch is then rejected, the narrative (and the
    GM error message) stay in the chat log while the scene and the
    choices are not updated. *)
Lemma reconcile_narrative_without_batch :
  let d := w_db (snd (_triggerGmResponse (Some reply_choices) [msgA]
                        (world0 [true; false]))) in
  db_messages d =
    [msgA;
     mkChatMessage "m1" RAssistant (JStr "x") (Some "GM") None;
     mkChatMessage "m2" RSystem (JStr gm_error_text) None None] /\
  db_room d = room0 /\ db_players d = [fighter].
Proof. vm_compute. repeat split. Qed.

(* ------------------------------------------------------------------ *)
(** ** The batch and the roll/choices invariant *)

Section RollInvariant.

Lemma scene_ops_no_roll (scene : option json) :
  forallb is_scene (match scene with
                    | Some s => if truthy s then [SetScene s] else []
                    | None => []
                    end) = true.
Proof. destruct scene as [s|]; [destruct (truthy s)|]; reflexivity. Qed.

Lemma choices_ops_no_roll (ch : jsv) (players : list Player) :
  forallb (fun op => negb (touches_roll op)) (flat_map (choices_op ch) players) = true.
Proof.
  induction players as [|p r IH]; [reflexivity|]. simpl.
  rewrite forallb_app, IH. unfold choices_op.
  destruct (class_label p); reflexivity.
Qed.

(** The three shapes of the batch: only the scene; the scene, the active
    roll and [choices: null] for every player; or the scene, the removal
    of a stale roll when the snapshot shows one, and choice updates. *)
Lemma reconcile_ops_shape room players resp ops :
  reconcile_ops room players resp = Ok ops ->
  (exists pre, forallb is_scene pre = true /\ ops = pre) \/
  (exists pre a, forallb is_scene pre = true /\
     ops = (pre ++ SetActiveRoll a :: map (fun p => SetChoices (p_id p) JNull) players)%list) \/
  (exists pre post, forallb is_scene pre = true /\
     forallb (fun op => negb (touches_roll op)) post = true /\
     ops = (pre ++ (match r_activeRoll room with
                    | Some _ => [DeleteActiveRoll]
                    | None => []
                    end) ++ post)%list).
Proof.
  unfold reconcile_ops, rbind.
  destruct (get_prop resp "scene_image_prompt") as [scene|e]; [|discriminate].
  pose proof (scene_ops_no_roll scene) as Hsc.
  set (ops1 := match scene with
               | Some s => if truthy s then [SetScene s] else []
               | None => []
               end) in *.
  destruct (get_prop resp "roll_request") as [rr|e]; [|discriminate].
  destruct (target_class rr) as [tcn|e]; [|discriminate].
  destruct (truthy_opt tcn).
  - destruct (find _ players) as [tp|]; destruct rr as [rrv|];
      try (destruct (forallb valid_op ops1); intros H;
           [injection H as <-; left; exists ops1; split; [exact Hsc|reflexivity]
           |discriminate]).
    destruct (get_prop (view rrv) "diceType") as [dt|e]; [|discriminate].
    destruct (get_prop (view rrv) "reason") as [rs|e]; [|discriminate].
    destruct (forallb valid_op _); [|discriminate]. intros H. injection H as <-.
    right; left. eexists ops1, _. split; [exact Hsc|reflexivity].
  - destruct (get_prop resp "choices") as [ch|e]; [|discriminate].
    destruct ch as [chv|];
      [destruct (truthy chv)|];
      try (destruct (forallb valid_op ops1); intros H;
           [injection H as <-; left; exists ops1; split; [exact Hsc|reflexivity]
           |discriminate]).
    destruct (forallb valid_op _); [|discriminate]. intros H. injection H as <-.
    right; right. exists ops1, (flat_map (choices_op (view chv)) players).
    split; [exact Hsc|]. split; [apply choices_ops_no_roll|reflexivity].
Qed.

Lemma fold_activeRoll_kept ops :
  forall d, forallb (fun op => negb (touches_roll op)) ops = true ->
  r_activeRoll (db_room (fold_left apply_op ops d)) = r_activeRoll (db_room d).
Proof.
  induction ops as [|op r IH]; intros d H; [reflexivity|].
  simpl in H |- *. apply andb_prop in H. destruct H as [H1 H2].
  rewrite IH by exact H2. destruct op; simpl in *; try discriminate; reflexivity.
Qed.

Lemma fold_players_scene ops :
  forall d, forallb is_scene ops = true ->
  db_players (fold_left apply_op ops d) = db_players d /\
  r_activeRoll (db_room (fold_left apply_op ops d)) = r_activeRoll (db_room d).
Proof.
  induction ops as [|op r IH]; intros d H; [split; reflexivity|].
  simpl in H |- *. apply andb_prop in H. destruct H as [H1 H2].
  destruct (IH (apply_op d op) H2) as [-> ->].
  destruct op; simpl in *; try discriminate. split; reflexivity.
Qed.

Lemma in_update_players ps pid f q :
  In q (update_players ps pid f) ->
  exists q0, In q0 ps /\
             (q = f q0 /\ String.eqb (p_id q0) pid = true \/
              q = q0 /\ String.eqb (p_id q0) pid = false).
Proof.
  unfold update_players. intros Hq. apply in_map_iff in Hq.
  destruct Hq as [q0 [Hq Hin]]. exists q0. split; [exact Hin|].
  destruct (String.eqb (p_id q0) pid) eqn:E; subst q.
  - left; split; reflexivity.
  - right; split; reflexivity.
Qed.

(** After [choices: null] for every player of [ps], each stored player
    whose id is among them has [choices] null; the others are untouched. *)
Lemma fold_clear_choices (ps : list Player) :
  forall d q, In q (db_players (fold_left apply_op
                                  (map (fun p => SetChoices (p_id p) JNull) ps) d)) ->
  (In (p_id q) (map p_id ps) -> p_choices q = Some JNull) /\
  (~ In (p_id q) (map p_id ps) -> In q (db_players d)).
Proof.
  induction ps as [|p r IH]; intros d q Hq; simpl in Hq |- *.
  - split; [intros []|intros _; exact Hq].
  - destruct (IH _ _ Hq) as [Hin Hout]. split.
    + intros Hid. destruct (in_dec string_dec (p_id q) (map p_id r)) as [Hr|Hr];
        [apply Hin, Hr|].
      destruct Hid as [Hid|Hid]; [|contradiction].
      specialize (Hout Hr). simpl in Hout.
      destruct (in_update_players _ _ _ _ Hout) as [q0 [_ [[-> _]|[-> E]]]].
      * reflexivity.
      * rewrite Hid, String.eqb_refl in E. discriminate.
    + intros Hid. assert (Hr : ~ In (p_id q) (map p_id r)) by (intros H; apply Hid; right; exact H).
      specialize (Hout Hr). simpl in Hout.
      destruct (in_update_players _ _ _ _ Hout) as [q0 [Hin0 [[-> E]|[-> _]]]].
      * apply String.eqb_eq in E. exfalso. apply Hid. left. simpl. symmetry. exact E.
      * exact Hin0.
Qed.

Lemma roll_excludes_choices_rp d1 d2 :
  rp d1 = rp d2 -> roll_excludes_choices d1 -> roll_excludes_choices d2.
Proof.
  unfold rp, roll_excludes_choices. intros H. injection H as Hr Hp.
  rewrite <- Hr, <- Hp. exact (fun x => x).
Qed.

(** One reconciliation on a snapshot that shows the stored room and
    players keeps the invariant. *)
Lemma reconcile_keeps_invariant room d resp ops :
  r_activeRoll room = r_activeRoll (db_room d) ->
  reconcile_ops room (db_players d) resp = Ok ops ->
  roll_excludes_choices d ->
  roll_excludes_choices (fold_left apply_op ops d).
Proof.
  intros Hroll Hops Hinv.
  destruct (reconcile_ops_shape _ _ _ _ Hops) as [[pre [Hpre ->]]|[[pre [a [Hpre ->]]]|[pre [post [Hpre [Hpost ->]]]]]].
  - destruct (fold_players_scene pre d Hpre) as [Hp Hr].
    unfold roll_excludes_choices in *. rewrite Hp, Hr. exact Hinv.
  - right. rewrite fold_left_app. simpl.
    apply Forall_forall. intros q Hq.
    destruct (fold_clear_choices (db_players d) _ q Hq) as [Hin Hout].
    destruct (fold_players_scene pre d Hpre) as [Hp _].
    destruct (in_dec string_dec (p_id q) (map p_id (db_players d))) as [Hid|Hid].
    + rewrite (Hin Hid). reflexivity.
    + specialize (Hout Hid). simpl in Hout. rewrite Hp in Hout.
      exfalso. apply Hid. apply in_map, Hout.
  - left. rewrite !fold_left_app.
    rewrite (fold_activeRoll_kept post) by exact Hpost.
    destruct (fold_players_scene pre d Hpre) as [_ Hr].
    rewrite Hroll.
    destruct (r_activeRoll (db_room d)) as [ar|] eqn:E; simpl.
    + reflexivity.
    + rewrite Hr. reflexivity.
Qed.

Lemma keeps_inv_of_rp {A} (m : M A) : keeps_rp m -> keeps_inv m.
Proof.
  intros Hk w Hinv. apply (roll_excludes_choices_rp (w_db w)); [|exact Hinv].
  symmetry. apply Hk.
Qed.

Lemma keeps_inv_bind {A B} (m : M A) (f : A -> M B) :
  keeps_inv m -> (forall a, keeps_inv (f a)) -> keeps_inv (bind m f).
Proof.
  intros Hm Hf w Hinv. unfold bind. specialize (Hm w Hinv).
  destruct (m w) as [[a|e] w1]; simpl in *; [apply Hf|]; exact Hm.
Qed.

Lemma keeps_inv_get_st : keeps_inv get_st.
Proof. intros w H; exact H. Qed.

Lemma keeps_inv_ret {A} (a : A) : keeps_inv (ret a).
Proof. intros w H; exact H. Qed.

Lemma keeps_inv_throw {A} (e : exn) : keeps_inv (@throw A e).
Proof. intros w H; exact H. Qed.

Lemma keeps_inv_addMessage r c sn a : keeps_inv (addMessage r c sn a).
Proof. apply keeps_inv_of_rp, keeps_addMessage. Qed.

Lemma update_players_empty ps pid f :
  (forall p, choices_empty (p_choices p) = true -> choices_empty (p_choices (f p)) = true) ->
  Forall (fun p => choices_empty (p_choices p) = true) ps ->
  Forall (fun p => choices_empty (p_choices p) = true) (update_players ps pid f).
Proof.
  intros Hf H. unfold update_players. apply Forall_map.
  eapply Forall_impl; [|exact H]. intros p Hp. simpl.
  destruct (String.eqb (p_id p) pid); [apply Hf|]; exact Hp.
Qed.

(** A player update that keeps empty choice lists empty. *)
Lemma keeps_inv_update_player pid f :
  (forall p, choices_empty (p_choices p) = true -> choices_empty (p_choices (f p)) = true) ->
  keeps_inv (update_player pid f).
Proof.
  intros Hf w Hinv. unfold update_player, bind, write_ok, get_db, put_db, throw.
  destruct (w_faults w) as [|b fl]; simpl;
    [destruct (player_exists (db_players (w_db w)) pid)
    |destruct (b && player_exists (db_players (w_db w)) pid)]; simpl; try exact Hinv;
    (destruct Hinv as [Hn|Hall]; [left; exact Hn|right; apply update_players_empty; assumption]).
Qed.

(** A room update that clears the active roll or leaves it alone. *)
Lemma keeps_inv_update_room f :
  (forall r, r_activeRoll (f r) = None \/ r_activeRoll (f r) = r_activeRoll r) ->
  keeps_inv (update_room f).
Proof.
  intros Hf w Hinv. unfold update_room, bind, write_ok, get_db, put_db, throw.
  destruct (w_faults w) as [|b fl]; simpl; [|destruct b; simpl; [|exact Hinv]];
  (destruct (Hf (db_room (w_db w))) as [Hn|Hs]; [left; exact Hn|];
   destruct Hinv as [Hn|Hall]; [left; simpl; rewrite Hs; exact Hn|right; exact Hall]).
Qed.

Lemma keeps_inv_set_player_doc p :
  choices_empty (p_choices p) = true -> keeps_inv (set_player_doc p).
Proof.
  intros Hp w Hinv. unfold set_player_doc, bind, write_ok, get_db, put_db, throw.
  destruct (w_faults w) as [|b fl]; simpl; [|destruct b; simpl; [|exact Hinv]];
  (destruct Hinv as [Hn|Hall]; [left; exact Hn|right; simpl];
   destruct (player_exists (db_players (w_db w)) (p_id p));
   [apply update_players_empty; [intros; exact Hp|exact Hall]
   |apply Forall_app; split; [exact Hall|constructor; [exact Hp|constructor]]]).
Qed.

Lemma turn_keeps_invariant reply hist w :
  synced w -> roll_excludes_choices (w_db w) ->
  roll_excludes_choices (w_db (snd (_triggerGmResponse reply hist w))).
Proof.
  intros [Hroom Hpl] Hinv.
  destruct (trigger_rp_cases reply hist w)
    as [H|[room [raw [resp [ops [Hr [_ [_ [Hops Hrp]]]]]]]]].
  - apply (roll_excludes_choices_rp (w_db w)); [symmetry; exact H|exact Hinv].
  - rewrite Hpl in Hops.
    apply (roll_excludes_choices_rp (fold_left apply_op ops (w_db w)));
      [symmetry; exact Hrp|].
    exact (reconcile_keeps_invariant room (w_db w) resp ops (Hroom _ Hr) Hops Hinv).
Qed.

Lemma sendMessage_keeps_inv prompt isAction : keeps_inv (sendMessage prompt isAction).
Proof.
  unfold sendMessage. apply keeps_inv_bind; [apply keeps_inv_get_st|]. intros st.
  destruct (s_room st), (s_playerId st); try apply keeps_inv_ret.
  destruct (trim_is_empty prompt); [apply keeps_inv_ret|].
  apply keeps_inv_bind; [apply keeps_inv_addMessage|]. intros _.
  destruct isAction; [|apply keeps_inv_ret].
  apply keeps_inv_update_player. intros p _. reflexivity.
Qed.

Lemma performRoll_keeps_inv rollReq rnd : keeps_inv (performRoll rollReq rnd).
Proof.
  unfold performRoll. apply keeps_inv_bind; [apply keeps_inv_get_st|]. intros st.
  destruct (s_room st), (s_playerId st); try apply keeps_inv_ret.
  destruct (rr_diceType rollReq); try apply keeps_inv_throw.
  apply keeps_inv_bind; [apply keeps_inv_addMessage|]. intros _.
  apply keeps_inv_update_room. intros r. left. reflexivity.
Qed.

Lemma setReadyState_keeps_inv b : keeps_inv (setReadyState b).
Proof.
  unfold setReadyState. apply keeps_inv_bind; [apply keeps_inv_get_st|]. intros st.
  destruct (s_room st), (s_playerId st); try apply keeps_inv_ret.
  apply keeps_inv_update_player. intros p H. exact H.
Qed.

Lemma createCharacter_keeps_inv cd stats : keeps_inv (createCharacter cd stats).
Proof.
  unfold createCharacter. apply keeps_inv_bind; [apply keeps_inv_get_st|]. intros st.
  destruct (s_room st), (s_playerId st); try apply keeps_inv_ret.
  match goal with |- keeps_inv (if ?c then _ else _) => destruct c end;
    [apply keeps_inv_ret|].
  apply keeps_inv_bind; [apply keeps_inv_set_player_doc; reflexivity|]. intros _.
  match goal with |- keeps_inv (if ?c then _ else _) => destruct c end;
    [apply keeps_inv_ret|apply keeps_inv_addMessage].
Qed.

(** An update of the room that leaves its active roll alone keeps the
    session, the roll and the players. *)
Lemma update_room_keeps_roll f w :
  (forall r, r_activeRoll (f r) = r_activeRoll r) ->
  w_st (snd (update_room f w)) = w_st w /\
  r_activeRoll (db_room (w_db (snd (update_room f w)))) = r_activeRoll (db_room (w_db w)) /\
  db_players (w_db (snd (update_room f w))) = db_players (w_db w).
Proof.
  intros Hf. unfold update_room, bind, write_ok, get_db, put_db, throw.
  destruct (w_faults w) as [|[|] fl]; simpl; rewrite ?Hf; auto.
Qed.

Lemma startGame_keeps_inv reply w :
  synced w -> roll_excludes_choices (w_db w) ->
  roll_excludes_choices (w_db (snd (startGame reply w))).
Proof.
  intros Hs Hinv. unfold startGame, bind at 1, get_st. simpl.
  destruct (s_room (w_st w)) as [room|]; [|exact Hinv].
  unfold bind.
  destruct (update_room_keeps_roll (fun r => set_status r Playing) w (fun r => eq_refl))
    as [Hst [Hroll Hpl]].
  destruct (update_room (fun r => set_status r Playing) w) as [[[]|e] w1]; simpl in *.
  - apply turn_keeps_invariant.
    + destruct Hs as [Hr Hp]. split.
      * intros rm Hrm. rewrite Hroll. apply Hr. rewrite <- Hst. exact Hrm.
      * rewrite Hst, Hpl. exact Hp.
    + unfold roll_excludes_choices. rewrite Hroll, Hpl. exact Hinv.
  - unfold roll_excludes_choices. rewrite Hroll, Hpl. exact Hinv.
Qed.

End RollInvariant.

(** C4 (amended): every store action that writes to the room's documents
    (a turn, [sendMessage], [performRoll], [setReadyState],
    [createCharacter], [startGame]) keeps the invariant "an active roll
    excludes populated choice lists", provided the session's snapshot of
    the room's active roll and of the players agrees with the store when
    the action starts. *)
Theorem store_action_keeps_roll_invariant (a : StoreAction) (w : World) :
  synced w -> roll_excludes_choices (w_db w) ->
  roll_excludes_choices (w_db (snd (run_action a w))).
Proof.
  intros Hs Hinv. destruct a as [reply hist|prompt b|rr rnd|b|cd stats|reply]; simpl.
  - apply turn_keeps_invariant; assumption.
  - apply sendMessage_keeps_inv; exact Hinv.
  - apply performRoll_keeps_inv; exact Hinv.
  - apply setReadyState_keeps_inv; exact Hinv.
  - apply createCharacter_keeps_inv; exact Hinv.
  - apply startGame_keeps_inv; assumption.
Qed.

Lemma store_action_keeps_roll_invariant_witness :
  synced (world0 []) /\ roll_excludes_choices (w_db (world0 [])) /\
  roll_excludes_choices (w_db (snd (run_action (ATurn (Some reply_roll) []) (world0 [])))).
Proof.
  assert (Hs : synced (world0 [])).
  { split; [intros room H; injection H as <-; reflexivity|reflexivity]. }
  assert (Hi : roll_excludes_choices (w_db (world0 []))) by (left; reflexivity).
  split; [exact Hs|]. split; [exact Hi|].
  exact (store_action_keeps_roll_invariant (ATurn (Some reply_roll) []) (world0 []) Hs Hi).
Defined.

(** C4 counterexample: two turns started from the same snapshot of the
    room (no active roll), e.g. [startGame] pressed twice while the first
    turn waits for its reply. The first commits a roll request for the
    Fighter; the second, still seeing no active roll, writes choices and
    deletes nothing: the roll and the Fighter's choices end up set
    together. *)
Lemma overlapping_turns_break_roll_invariant :
  roll_excludes_choices (w_db (world0 [])) /\
  ~ roll_excludes_choices
      (w_db (snd (_triggerGmResponse (Some reply_choices) []
                    (mkWorld (w_db (snd (_triggerGmResponse (Some reply_roll) [] (world0 []))))
                             st0 [])))).
Proof.
  split; [left; reflexivity|].
  vm_compute. intros [H|H]; [discriminate|]. inversion H. discriminate.
Qed.

(** C2 (failing input): a roll request whose [targetClassName] matches no
    participant ("Bard" in a party of one Fighter) is resolved to no one,
    yet the choices branch is skipped too, because it is the [else] of the
    test on [targetClassName] alone: after the turn no roll is active and
    the Fighter has no choices, although the response carried
    [{"Fighter": ["a","b"]}]. *)
Theorem unresolved_roll_request_skips_choices :
  r_activeRoll (db_room (w_db (snd (_triggerGmResponse (Some reply_roll_unresolved) []
                                      (world0 []))))) = None /\
  db_players (w_db (snd (_triggerGmResponse (Some reply_roll_unresolved) [] (world0 []))))
  = [fighter] /\
  p_choices fighter = None.
Proof. vm_compute. repeat split. Qed.

(* ------------------------------------------------------------------ *)
(** ** The padding of the choices *)

Section RepairShape.

Lemma assoc_get_set_eq {A} k (v : A) l : assoc_get k (assoc_set k v l) = Some v.
Proof.
  induction l as [|[k' v'] r IH]; simpl.
  - rewrite String.eqb_refl. reflexivity.
  - destruct (String.eqb k k') eqn:E; simpl; rewrite E; [reflexivity|exact IH].
Qed.

Lemma assoc_get_set_neq {A} k k' (v : A) l :
  k <> k' -> assoc_get k (assoc_set k' v l) = assoc_get k l.
Proof.
  intros Hne. induction l as [|[j w] r IH]; simpl.
  - destruct (String.eqb k k') eqn:E; [apply String.eqb_eq in E; contradiction|reflexivity].
  - destruct (String.eqb k' j) eqn:E1; simpl.
    + apply String.eqb_eq in E1. subst j.
      destruct (String.eqb k k') eqn:E; [apply String.eqb_eq in E; contradiction|reflexivity].
    + destruct (String.eqb k j); [reflexivity|exact IH].
Qed.

Lemma assoc_set_keys {A} k (v : A) l :
  exists suf, map fst (assoc_set k v l) = (map fst l ++ suf)%list.
Proof.
  induction l as [|[j w] r [suf IH]]; simpl.
  - exists [k]. reflexivity.
  - destruct (String.eqb k j); simpl.
    + exists []. rewrite app_nil_r. reflexivity.
    + exists suf. rewrite IH. reflexivity.
Qed.

Lemma assoc_set_twice {A} k (v1 v2 : A) l :
  assoc_set k v2 (assoc_set k v1 l) = assoc_set k v2 l.
Proof.
  induction l as [|[j w] r IH]; simpl.
  - rewrite String.eqb_refl. reflexivity.
  - destruct (String.eqb k j) eqn:E; simpl; rewrite E; [reflexivity|rewrite IH; reflexivity].
Qed.

Lemma assoc_get_in {A} k l (v : A) : assoc_get k l = Some v -> In k (map fst l).
Proof.
  induction l as [|[j w] r IH]; simpl; [discriminate|].
  destruct (String.eqb k j) eqn:E; intros H.
  - left. symmetry. apply String.eqb_eq, E.
  - right. apply IH, H.
Qed.

Lemma assoc_set_absent {A} k (v : A) l :
  assoc_get k l = None -> assoc_set k v l = (l ++ [(k, v)])%list.
Proof.
  induction l as [|[j w] r IH]; simpl; [reflexivity|].
  destruct (String.eqb k j); [discriminate|]. intros H. rewrite IH by exact H. reflexivity.
Qed.

Lemma find_app_some {A} (f : A -> bool) l r x :
  find f l = Some x -> find f (l ++ r)%list = Some x.
Proof.
  induction l as [|a l IH]; simpl; [discriminate|].
  destruct (f a); [exact (fun H => H)|exact IH].
Qed.

Lemma find_app_none {A} (f : A -> bool) l r :
  find f l = None -> find f (l ++ r)%list = find f r.
Proof.
  induction l as [|a l IH]; simpl; [reflexivity|].
  destruct (f a); [discriminate|exact IH].
Qed.

Lemma find_key_set fs c k k' (v : json) :
  find_key (VObj fs) c = Some k -> find_key (VObj (assoc_set k' v fs)) c = Some k.
Proof.
  unfold find_key, keys. destruct (assoc_set_keys k' v fs) as [suf ->].
  apply find_app_some.
Qed.

Lemma find_key_none fs c :
  find_key (VObj fs) c = None -> assoc_get c fs = None.
Proof.
  unfold find_key, keys. intros H.
  destruct (assoc_get c fs) as [v|] eqn:E; [|reflexivity].
  pose proof (find_none _ _ H c (assoc_get_in _ _ _ E)) as Hc.
  cbv beta in Hc. rewrite String.eqb_refl in Hc. discriminate.
Qed.

Lemma find_key_new fs c (v : json) :
  find_key (VObj fs) c = None -> find_key (VObj (assoc_set c v fs)) c = Some c.
Proof.
  intros H. rewrite (assoc_set_absent c v fs (find_key_none fs c H)).
  unfold find_key, keys in *. rewrite map_app. rewrite (find_app_none _ _ _ H).
  simpl. rewrite String.eqb_refl. reflexivity.
Qed.

Lemma pad_choices_short l :
  (length l < 2)%nat ->
  pad_choices l
  = (l ++ firstn (2 - length l) (map JStr (filter (fun d => negb (includes l d)) defaults)))%list
  /\ NoDup (pad_choices l).
Proof.
  intros Hl. destruct l as [|x [|y r]]; [| |simpl in Hl; lia].
  - split; [reflexivity|].
    vm_compute. constructor; [intros [H|[]]; discriminate|].
    constructor; [intros []|constructor].
  - destruct x as [| | |s| |];
      try (split; [reflexivity|];
           vm_compute; constructor; [intros [H|[]]; discriminate|];
           constructor; [intros []|constructor]).
    destruct (String.eqb s "Observe surroundings") eqn:E.
    + apply String.eqb_eq in E. subst s. split; [reflexivity|].
      vm_compute. constructor; [intros [H|[]]; discriminate|].
      constructor; [intros []|constructor].
    + unfold pad_choices. simpl. unfold next_default, includes. simpl. rewrite E. simpl.
      split; [reflexivity|].
      constructor; [|constructor; [intros []|constructor]].
      intros [H|[]]. injection H as H. subst s.
      rewrite String.eqb_refl in E. discriminate.
Qed.

Lemma pad_choices_length l : (length l < 2)%nat -> length (pad_choices l) = 2.
Proof.
  intros Hl. destruct l as [|x [|y r]]; [reflexivity|reflexivity|simpl in Hl; lia].
Qed.

Lemma repaired_not_short o l : repaired_value o = JArr l -> (2 <= length l)%nat.
Proof.
  destruct o as [[|b|n|s|l0|fs]|]; simpl; intros H; try discriminate.
  - destruct (length l0 <? 2)%nat eqn:E; injection H as <-.
    + rewrite pad_choices_length by (apply Nat.ltb_lt, E). lia.
    + apply Nat.ltb_ge, E.
  - injection H as <-. reflexivity.
Qed.

Lemma cur_repaired o cur :
  (Some cur = o \/ Some cur = Some (repaired_value o)) ->
  (forall l, cur = JArr l -> (2 <= length l)%nat) ->
  cur = repaired_value o.
Proof.
  intros [H|H] Hl.
  - subst o. destruct cur as [|b|n|s|l|fs]; simpl; try reflexivity.
    destruct (length l <? 2)%nat eqn:E; [|reflexivity].
    apply Nat.ltb_lt in E. specialize (Hl l eq_refl). lia.
  - injection H as H. exact H.
Qed.

Lemma cur_short o l :
  (Some (JArr l) = o \/ Some (JArr l) = Some (repaired_value o)) ->
  (length l < 2)%nat -> repaired_value o = JArr (pad_choices l).
Proof.
  intros [H|H] Hl.
  - subst o. simpl. rewrite (proj2 (Nat.ltb_lt _ _) Hl). reflexivity.
  - injection H as H. pose proof (repaired_not_short o l (eq_sym H)). lia.
Qed.


Lemma repair_write fs0 fs fs1 :
  repair_inv fs0 fs ->
  (fs1 = fs \/ exists k', fs1 = assoc_set k' (repaired_value (assoc_get k' fs0)) fs) ->
  repair_inv fs0 fs1 /\
  (forall cls, repaired_entry fs0 fs cls -> repaired_entry fs0 fs1 cls).
Proof.
  intros Hinv [->|[k' ->]]; [split; [exact Hinv|auto]|].
  destruct Hinv as [Hval Hkeys]. split; [split|].
  - intros k. destruct (string_dec k k') as [->|Hne].
    + right. apply assoc_get_set_eq.
    + rewrite assoc_get_set_neq by exact Hne. apply Hval.
  - intros cl k H. apply find_key_set, Hkeys, H.
  - intros cls [k [Hk Hv]]. exists k. split; [apply find_key_set, Hk|].
    destruct (string_dec k k') as [->|Hne].
    + apply assoc_get_set_eq.
    + rewrite assoc_get_set_neq by exact Hne. exact Hv.
Qed.

Lemma repair_player_step fs0 fs p c :
  repair_inv fs0 fs ->
  repair_player (VObj fs) p = Ok c ->
  exists fs', c = VObj fs' /\
    (fs' = fs \/ exists k', fs' = assoc_set k' (repaired_value (assoc_get k' fs0)) fs) /\
    (forall cls, class_label p = Some cls -> repaired_entry fs0 fs' cls).
Proof.
  intros [Hval Hkeys]. unfold repair_player.
  destruct (class_label p) as [cls|] eqn:Hcl.
  2: { intros H. injection H as <-. exists fs. split; [reflexivity|].
       split; [left; reflexivity|]. intros cls' H; discriminate. }
  destruct (find_key (VObj fs) cls) as [k|] eqn:Hfk; simpl.
  - pose proof (Hval k) as Hv.
    destruct (assoc_get k fs) as [cur|] eqn:Hcur; [|discriminate].
    assert (Hkeep : (forall l, cur = JArr l -> (2 <= length l)%nat) ->
                    exists fs', VObj fs = VObj fs' /\
                      (fs' = fs \/ exists k', fs' = assoc_set k' (repaired_value (assoc_get k' fs0)) fs) /\
                      (forall cls0, Some cls = Some cls0 -> repaired_entry fs0 fs' cls0)).
    { intros Hl. exists fs. split; [reflexivity|]. split; [left; reflexivity|].
      intros cls0 Hc0. injection Hc0 as <-. exists k. split; [exact Hfk|].
      rewrite Hcur. f_equal. apply cur_repaired; assumption. }
    destruct cur as [|b|n|s|l|o']; simpl.
    + discriminate.
    + intros H. injection H as <-. apply Hkeep. discriminate.
    + intros H. injection H as <-. apply Hkeep. discriminate.
    + destruct (js_length s <? 2)%nat; [discriminate|].
      intros H. injection H as <-. apply Hkeep. discriminate.
    + destruct (length l <? 2)%nat eqn:E.
      * intros H. injection H as <-.
        exists (assoc_set k (JArr (pad_choices l)) fs). split; [reflexivity|].
        rewrite <- (cur_short _ _ Hv (proj1 (Nat.ltb_lt _ _) E)).
        split; [right; exists k; reflexivity|].
        intros cls0 Hc0. injection Hc0 as <-. exists k.
        split; [apply find_key_set, Hfk|apply assoc_get_set_eq].
      * intros H. injection H as <-. apply Hkeep.
        intros l' H'. injection H' as <-. apply Nat.ltb_ge, E.
    + intros H. injection H as <-. apply Hkeep. discriminate.
  - rewrite assoc_get_set_eq. simpl. intros H. injection H as <-.
    rewrite assoc_set_twice.
    assert (E0 : assoc_get cls fs0 = None).
    { destruct (find_key (VObj fs0) cls) as [k0|] eqn:E0.
      - apply Hkeys in E0. rewrite Hfk in E0. discriminate.
      - apply find_key_none, E0. }
    exists (assoc_set cls (JArr (pad_choices [])) fs). split; [reflexivity|].
    split; [right; exists cls; rewrite E0; reflexivity|].
    intros cls0 Hc0. injection Hc0 as <-. exists cls.
    split; [apply find_key_new, Hfk|rewrite assoc_get_set_eq, E0; reflexivity].
Qed.

Lemma repair_players_fold ps :
  forall fs0 fs c,
    repair_inv fs0 fs -> repair_players ps (VObj fs) = Ok c ->
    exists fs', c = VObj fs' /\
      (forall cls, repaired_entry fs0 fs cls -> repaired_entry fs0 fs' cls) /\
      (forall p cls, In p ps -> class_label p = Some cls -> repaired_entry fs0 fs' cls).
Proof.
  induction ps as [|p r IH]; intros fs0 fs c Hinv; simpl.
  - intros H. injection H as <-. exists fs. split; [reflexivity|].
    split; [auto|intros p cls []].
  - destruct (repair_player (VObj fs) p) as [c1|e] eqn:Hs; simpl; [|discriminate].
    intros Hr.
    destruct (repair_player_step fs0 fs p c1 Hinv Hs) as [fs1 [-> [Hw Hp]]].
    destruct (repair_write fs0 fs fs1 Hinv Hw) as [Hinv1 Hmono1].
    destruct (IH fs0 fs1 c Hinv1 Hr) as [fs' [-> [Hmono Hall]]].
    exists fs'. split; [reflexivity|]. split.
    + intros cls H. apply Hmono, Hmono1, H.
    + intros q cls [<-|Hq] Hc; [apply Hmono, Hp, Hc|apply (Hall q); assumption].
Qed.

End RepairShape.

(** C5 (amended): the repair's pass over the players, on the reply's
    choices object [fs0] (an empty one when the reply has none), when it
    completes, leaves for every player with a class a key matching the
    class case-insensitively whose value is the repaired value of that
    key in the reply: a list of fewer than two entries padded, anything
    else as it was; a created key holds the padded empty list.  The
    padding appends, in order, the entries of the fallback pool not
    already present, until the list has exactly two entries, which are
    then distinct.  On the specification's example, the Fighter's list
    ["a"] becomes ["a", "Observe surroundings"]. *)
Theorem repair_pads_choices (ps : list Player) (fs0 : list (string * json)) (c : jsv) :
  repair_players ps (VObj fs0) = Ok c ->
  (exists fs, c = VObj fs /\
     forall p cls, In p ps -> class_label p = Some cls -> repaired_entry fs0 fs cls) /\
  (forall l, (length l < 2)%nat ->
     length (pad_choices l) = 2 /\
     pad_choices l
     = (l ++ firstn (2 - length l)
               (map JStr (filter (fun d => negb (includes l d)) defaults)))%list /\
     NoDup (pad_choices l)) /\
  repair_response [fighter] reply_spec_example
  = Ok (VObj [("narrative", JStr "x");
              ("choices", JObj [("Fighter", JArr [JStr "a"; JStr "Observe surroundings"])])]).
Proof.
  intros H. split; [|split; [|vm_compute; reflexivity]].
  - destruct (repair_players_fold ps fs0 fs0 c
                (conj (fun k => or_introl eq_refl) (fun cl k Hk => Hk)) H)
      as [fs [-> [_ Hall]]].
    exists fs. split; [reflexivity|exact Hall].
  - intros l Hl. destruct (pad_choices_short l Hl) as [Heq Hnd].
    split; [apply pad_choices_length, Hl|split; assumption].
Qed.

Lemma repair_pads_choices_witness :
  repair_players [fighter] (VObj [("Fighter", JArr [JStr "a"])])
  = Ok (VObj [("Fighter", JArr [JStr "a"; JStr "Observe surroundings"])]) /\
  exists fs, VObj [("Fighter", JArr [JStr "a"; JStr "Observe surroundings"])] = VObj fs /\
             repaired_entry [("Fighter", JArr [JStr "a"])] fs "Fighter".
Proof.
  split; [reflexivity|].
  destruct (proj1 (repair_pads_choices [fighter] [("Fighter", JArr [JStr "a"])]
                     (VObj [("Fighter", JArr [JStr "a"; JStr "Observe surroundings"])])
                     eq_refl)) as [fs [H1 H2]].
  exists fs. split; [exact H1|].
  apply (H2 fighter); [left; reflexivity|reflexivity].
Defined.

(** C5 counterexample: a list that already has two entries is not
    padded, so the repair leaves the Fighter two equal choices. *)
Lemma repair_keeps_duplicate_choices :
  repair_response [fighter] reply_dup_choices
  = Ok (VObj [("choices", JObj [("Fighter", JArr [JStr "a"; JStr "a"])])]) /\
  ~ NoDup [JStr "a"; JStr "a"].
Proof.
  split; [vm_compute; reflexivity|].
  intros H. inversion H as [|x l Hx Hl]. apply Hx. left. reflexivity.
Qed.

(* ------------------------------------------------------------------ *)
(** ** The regular-expression fallback *)

Section BraceMatch.

Lemma last_close_none s : last_close s = None <-> has_char "}" s = false.
Proof.
  induction s as [|c r IH]; simpl; [split; reflexivity|].
  destruct (last_close r) eqn:E.
  - split; [discriminate|]. intros H. apply orb_false_iff in H.
    destruct H as [_ H]. apply IH in H. discriminate H.
  - assert (Hr : has_char "}" r = false) by (apply IH; reflexivity).
    rewrite Hr, orb_false_r. destruct (c =? "}")%char; split; congruence.
Qed.

Lemma last_close_some s j :
  last_close s = Some j ->
  exists a post, s = (a ++ String "}" post)%string /\ String.length a = j /\
                 has_char "}" post = false.
Proof.
  revert j. induction s as [|c r IH]; intros j; simpl; [discriminate|].
  destruct (last_close r) as [n|] eqn:E.
  - intros H. injection H as <-. destruct (IH n eq_refl) as [a [post [-> [Hl Hp]]]].
    exists (String c a), post. simpl. auto.
  - destruct (c =? "}")%char eqn:Ec; [|discriminate]. intros H. injection H as <-.
    apply Ascii.eqb_eq in Ec. subst c. exists "", r.
    split; [reflexivity|]. split; [reflexivity|]. apply last_close_none, E.
Qed.

Lemma last_close_last mid post :
  has_char "}" post = false ->
  last_close (mid ++ String "}" post) = Some (String.length mid).
Proof.
  intros Hp. induction mid as [|c m IH]; simpl.
  - apply last_close_none in Hp. rewrite Hp. reflexivity.
  - rewrite IH. reflexivity.
Qed.

Lemma substring_prefix a c post :
  substring 0 (S (String.length a)) (a ++ String c post) = (a ++ String c "")%string.
Proof.
  induction a as [|d a IH]; simpl; [destruct post; reflexivity|rewrite IH; reflexivity].
Qed.

Lemma has_char_close a b : has_char "}" (a ++ String "}" b) = true.
Proof. induction a as [|c a IH]; simpl; [reflexivity|rewrite IH, orb_true_r; reflexivity]. Qed.

Lemma has_char_app c a b : has_char c (a ++ b) = has_char c a || has_char c b.
Proof. induction a as [|d a IH]; simpl; [reflexivity|rewrite IH, orb_assoc; reflexivity]. Qed.

Lemma brace_match_some pre mid post :
  has_char "{" pre = false -> has_char "}" post = false ->
  brace_match (pre ++ String "{" (mid ++ String "}" post))
  = Some (String "{" (mid ++ String "}" "")).
Proof.
  intros Hpre Hpost. induction pre as [|c pre IH]; simpl.
  - rewrite (last_close_last mid post Hpost), substring_prefix. reflexivity.
  - simpl in Hpre. apply orb_false_iff in Hpre. destruct Hpre as [Hc Hpre].
    rewrite Hc. apply IH, Hpre.
Qed.

Lemma brace_match_some_inv s m :
  brace_match s = Some m ->
  exists pre mid post,
    s = (pre ++ String "{" (mid ++ String "}" post))%string /\
    has_char "{" pre = false /\ has_char "}" post = false /\
    m = String "{" (mid ++ String "}" "").
Proof.
  revert m. induction s as [|c r IH]; intros m; simpl; [discriminate|].
  destruct (c =? "{")%char eqn:Ec.
  - apply Ascii.eqb_eq in Ec. subst c.
    destruct (last_close r) as [n|] eqn:E; [|discriminate]. intros H. injection H as <-.
    destruct (last_close_some r n E) as [mid [post [-> [<- Hp]]]].
    exists "", mid, post. split; [reflexivity|]. split; [reflexivity|].
    split; [exact Hp|]. rewrite substring_prefix. reflexivity.
  - intros H. destruct (IH m H) as [pre [mid [post [-> [Hpre [Hpost ->]]]]]].
    exists (String c pre), mid, post. simpl. rewrite Ec, Hpre. auto.
Qed.

Lemma brace_match_none s :
  brace_match s = None ->
  forall pre mid post, s <> (pre ++ String "{" (mid ++ String "}" post))%string.
Proof.
  destruct (brace_match s) as [m|] eqn:E; [discriminate|]. intros _.
  induction s as [|c r IH]; intros pre mid post Heq.
  - destruct pre; discriminate.
  - simpl in E. destruct (c =? "{")%char eqn:Ec.
    + destruct (last_close r) eqn:El; [discriminate|]. apply last_close_none in El.
      destruct pre as [|c' pre]; simpl in Heq; injection Heq as -> Hr; subst r.
      * rewrite has_char_close in El. discriminate.
      * rewrite has_char_app in El. simpl in El.
        rewrite has_char_close, !orb_true_r in El. discriminate.
    + destruct pre as [|c' pre]; simpl in Heq; injection Heq as -> Hr.
      * discriminate Ec.
      * exact (IH E pre mid post Hr).
Qed.

End BraceMatch.

(** C6 (amended): the reply is parsed whole first; when that fails, the
    fallback takes the text from the FIRST [{] to the LAST [}] (the
    greedy [/\{[\s\S]*\}/]) and parses it; when there is no [{] with a
    [}] after it, or that text does not parse either, an error is thrown. *)
Theorem parse_gm_response_greedy (raw : string) :
  (forall v, json_parse raw = Some v -> parse_gm_response raw = Ok v) /\
  (json_parse raw = None ->
   (forall pre mid post,
      raw = (pre ++ String "{" (mid ++ String "}" post))%string ->
      has_char "{" pre = false -> has_char "}" post = false ->
      parse_gm_response raw
      = match json_parse (String "{" (mid ++ String "}" "")) with
        | Some v => Ok v
        | None => Err (JsonError "Unrecoverable JSON error")
        end) /\
   ((forall pre mid post, raw <> (pre ++ String "{" (mid ++ String "}" post))%string) ->
    parse_gm_response raw = Err (JsonError "No JSON object found in response"))).
Proof.
  split; [intros v H; unfold parse_gm_response; rewrite H; reflexivity|].
  intros Hn. unfold parse_gm_response. rewrite Hn. split.
  - intros pre mid post -> Hpre Hpost. rewrite brace_match_some by assumption.
    reflexivity.
  - intros Hno. destruct (brace_match raw) as [m|] eqn:E; [|reflexivity].
    destruct (brace_match_some_inv raw m E) as [pre [mid [post [Heq _]]]].
    exfalso. exact (Hno pre mid post Heq).
Qed.

Lemma parse_gm_response_greedy_witness :
  json_parse ("x " ++ reply_two_objects) = None /\
  parse_gm_response ("x " ++ reply_two_objects)
  = match json_parse (String "{" ((jq "a" ++ ":1} {" ++ jq "b" ++ ":2") ++ String "}" ""))
    with
    | Some v => Ok v
    | None => Err (JsonError "Unrecoverable JSON error")
    end.
Proof.
  assert (Hn : json_parse ("x " ++ reply_two_objects) = None) by (vm_compute; reflexivity).
  split; [exact Hn|].
  apply (proj1 (proj2 (parse_gm_response_greedy ("x " ++ reply_two_objects)) Hn)
           "x " (jq "a" ++ ":1} {" ++ jq "b" ++ ":2") "");
    vm_compute; reflexivity.
Defined.

(** C6 counterexample: for two objects in a row, the first balanced span
    [{"a":1}] parses, but the greedy match takes both objects, which do
    not parse as one value: the turn fails. *)
Lemma greedy_match_rejects_two_objects :
  parse_gm_response reply_two_objects = Err (JsonError "Unrecoverable JSON error") /\
  spec_parse_gm_response reply_two_objects = Ok (JObj [("a", JNum "1")]).
Proof. split; vm_compute; reflexivity. Qed.

(* ------------------------------------------------------------------ *)
(** ** The die roll *)

(* ------------------------------------------------------------------ *)
(** ** Rounding of numbers *)

Section Numbers.
Local Open Scope Q_scope.





Lemma pow2_lt a b : (a < b)%Z -> pow2 a < pow2 b.
Proof. intros H. apply Qpower_lt_compat_l; [exact H|]. reflexivity. Qed.


















End Numbers.

Section Dice.








End Dice.




(* ------------------------------------------------------------------ *)
(** ** Failed turns *)

Section FailedTurns.

Lemma finally_clears {A} (m : M A) w :
  s_isAiThinking (w_st (snd (finally m (set_isAiThinking false) w))) = false.
Proof. unfold finally. destruct (m w) as [r w']. reflexivity. Qed.

Lemma turn_body_fails room players reply w :
  (reply = None \/
   exists raw e, reply = Some raw /\ repair_response players raw = Err e) ->
  exists e, turn_body room players reply w = (Err e, w).
Proof.
  intros [->|[raw [e [-> He]]]]; [exists NetworkError; reflexivity|].
  exists e. unfold turn_body, bind, lift, ret. simpl. rewrite He. reflexivity.
Qed.

End FailedTurns.

(** C8: once a turn has started (the session has a room), [isAiThinking]
    is [false] when it ends, whatever happened.  When the reply could not
    be obtained or parsed and repaired, the error does not leave the
    turn: the system message [gm_error_text] is appended and nothing else
    is written, provided the store accepts that write; only a rejection
    of that very write ends the turn in an error. *)
Theorem turn_failure_reported (reply : option string) (hist : list ChatMessage)
  (w : World) (room : GameRoom) :
  s_room (w_st w) = Some room ->
  s_isAiThinking (w_st (snd (_triggerGmResponse reply hist w))) = false /\
  ((reply = None \/
    exists raw e, reply = Some raw /\ repair_response (s_players (w_st w)) raw = Err e) ->
   (hd true (w_faults w) = true ->
    _triggerGmResponse reply hist w
    = (Ok tt,
       mkWorld (mkDb (db_room (w_db w)) (db_players (w_db w))
                     (db_messages (w_db w) ++
                      [mkChatMessage ("m" ++ nat_to_dec (length (db_messages (w_db w))))
                                     RSystem (JStr gm_error_text) None None])%list)
               (with_thinking (w_st w) false) (tl (w_faults w)))) /\
   (hd true (w_faults w) = false ->
    _triggerGmResponse reply hist w
    = (Err FirestoreError,
       mkWorld (w_db w) (with_thinking (w_st w) false) (tl (w_faults w))))).
Proof.
  intros Hr. rewrite (trigger_unfold _ _ _ _ Hr). split; [apply finally_clears|].
  intros Hfail.
  destruct (turn_body_fails room (s_players (w_st w)) reply
              (mkWorld (w_db w) (with_thinking (w_st w) true) (w_faults w)) Hfail)
    as [e He].
  unfold finally, try_catch. rewrite He.
  unfold addMessage, check_fs, bind, ret, write_ok, get_db, put_db, throw. simpl.
  destruct (w_faults w) as [|[|] r]; simpl; split; intros H; try discriminate; reflexivity.
Qed.

Lemma turn_failure_reported_witness :
  _triggerGmResponse None [] (world0 [])
  = (Ok tt,
     mkWorld (mkDb room0 [fighter]
                   [msgA; mkChatMessage "m1" RSystem (JStr gm_error_text) None None])
             (with_thinking st0 false) []).
Proof.
  exact (proj1 (proj2 (turn_failure_reported None [] (world0 []) room0 eq_refl)
                  (or_introl eq_refl)) eq_refl).
Defined.

(** C9: without a room, without an identity, or with a prompt that is
    empty or made only of white space and line terminators (those of
    ECMAScript, such as U+3000 or U+00A0, not only ASCII ones),
    [sendMessage] returns at once: no write, no change to the world. *)
Theorem sendMessage_guard (prompt : string) (isAction : bool) (w : World) :
  s_room (w_st w) = None \/ s_playerId (w_st w) = None \/ trim_is_empty prompt = true ->
  sendMessage prompt isAction w = (Ok tt, w).
Proof.
  intros H. unfold sendMessage, bind, get_st. simpl.
  destruct (s_room (w_st w)) as [room|] eqn:Hr; [|reflexivity].
  destruct (s_playerId (w_st w)) as [pid|] eqn:Hp; [|reflexivity].
  destruct H as [H|[H|H]]; [discriminate|discriminate|]. rewrite H. reflexivity.
Qed.

Lemma sendMessage_guard_witness :
  let ideographic_space := String (ascii_of_nat 227) (String (ascii_of_nat 128)
                             (String (ascii_of_nat 128) " 	")) in
  trim_is_empty ideographic_space = true /\
  sendMessage ideographic_space true (world0 []) = (Ok tt, world0 []).
Proof.
  cbv zeta. split; [vm_compute; reflexivity|].
  apply sendMessage_guard. right. right. vm_compute. reflexivity.
Defined.

(** C10: with a room, an identity [pid] whose player document exists, a
    prompt that is not blank (its [trim()] is not empty: it has a code
    point outside the ECMAScript WhiteSpace and LineTerminator set, which
    includes U+00A0, U+3000 and U+FEFF), and the store accepting the writes,
    [sendMessage] appends exactly one user message carrying the prompt
    and [isAction]; for an action it then sets the caller's [choices] to
    [null], and only the caller's: every other player and the room are
    unchanged; otherwise no player changes. *)
Theorem sendMessage_action (prompt : string) (isAction : bool) (w : World)
  (room : GameRoom) (pid : string) :
  s_room (w_st w) = Some room -> s_playerId (w_st w) = Some pid ->
  trim_is_empty prompt = false ->
  player_exists (db_players (w_db w)) pid = true -> w_faults w = [] ->
  let ps' := if isAction then update_players (db_players (w_db w)) pid
                                (fun p => set_choices p JNull)
             else db_players (w_db w) in
  sendMessage prompt isAction w =
  (Ok tt,
   mkWorld (mkDb (db_room (w_db w)) ps'
                 (db_messages (w_db w) ++
                  [mkChatMessage ("m" ++ nat_to_dec (length (db_messages (w_db w)))) RUser
                     (JStr prompt)
                     (Some (sender_name (find (fun p => String.eqb (p_id p) pid)
                                              (s_players (w_st w)))))
                     (Some isAction)])%list)
           (w_st w) []) /\
  (forall i p, nth_error (db_players (w_db w)) i = Some p ->
     exists p', nth_error ps' i = Some p' /\ p_id p' = p_id p /\
       (if isAction && String.eqb (p_id p) pid then p_choices p' = Some JNull
        else p' = p)).
Proof.
  intros Hr Hp Ht He Hf ps'. split.
  - destruct w as [d st f]. simpl in *. subst f.
    unfold sendMessage, bind, get_st. simpl. rewrite Hr, Hp, Ht.
    unfold addMessage, check_fs, bind, ret, write_ok, get_db, put_db. simpl.
    destruct isAction; simpl; [|reflexivity].
    unfold update_player, bind, write_ok, get_db, put_db. simpl. rewrite He.
    reflexivity.
  - intros i p Hi. subst ps'. destruct isAction; simpl.
    + unfold update_players. rewrite nth_error_map, Hi. simpl.
      eexists. split; [reflexivity|].
      destruct (String.eqb (p_id p) pid); split; reflexivity.
    + exists p. split; [exact Hi|]. split; reflexivity.
Qed.

Lemma sendMessage_action_witness :
  sendMessage "I hide" true
    (mkWorld db0 (mkSession (Some room0) [fighter] [msgA] (Some "p1") false None) [])
  = (Ok tt,
     mkWorld (mkDb room0 [set_choices fighter JNull]
                   [msgA; mkChatMessage "m1" RUser (JStr "I hide") (Some "Ann") (Some true)])
             (mkSession (Some room0) [fighter] [msgA] (Some "p1") false None) []).
Proof.
  exact (proj1 (sendMessage_action "I hide" true
                  (mkWorld db0 (mkSession (Some room0) [fighter] [msgA] (Some "p1") false None) [])
                  room0 "p1" eq_refl eq_refl eq_refl eq_refl eq_refl)).
Defined.

(* ------------------------------------------------------------------ *)
(** ** The model on small inputs *)

Example json_parse_obj :
  json_parse ("{" ++ jq "narrative" ++ ":" ++ jq "x" ++ "," ++ jq "choices" ++ ":{"
              ++ jq "Fighter" ++ ":[" ++ jq "a" ++ "]}}")
  = Some (JObj [("narrative", JStr "x");
                ("choices", JObj [("Fighter", JArr [JStr "a"])])]).
Proof. vm_compute. reflexivity. Qed.

Example json_parse_num :
  json_parse (" [1.5e3, -0, true, null, " ++ jq "aA\n" ++ "] ")
  = Some (JArr [JNum "1.5e3"; JNum "-0"; JBool true; JNull;
                JStr ("aA" ++ String (ascii_of_nat 10) EmptyString)]).
Proof. vm_compute. reflexivity. Qed.

Example json_parse_bad1 : json_parse ("blah {" ++ jq "a" ++ ":1}") = None.
Proof. vm_compute. reflexivity. Qed.

Example json_parse_bad2 : json_parse reply_two_objects = None.
Proof. vm_compute. reflexivity. Qed.

Example json_parse_dup :
  json_parse ("{" ++ jq "a" ++ ":1," ++ jq "b" ++ ":2," ++ jq "a" ++ ":3}")
  = Some (JObj [("a", JNum "3"); ("b", JNum "2")]).
Proof. vm_compute. reflexivity. Qed.

Example brace_match_greedy :
  brace_match ("x " ++ reply_two_objects ++ " z") = Some reply_two_objects.
Proof. vm_compute. reflexivity. Qed.

Example first_balanced_span_ex :
  first_balanced_span ("x {" ++ jq "a" ++ ":{}} y {" ++ jq "b" ++ ":2} z")
  = Some ("{" ++ jq "a" ++ ":{}}").
Proof. vm_compute. reflexivity. Qed.

Example faces_d20 : faces "d20" = Fin (inject_Z 20). Proof. vm_compute. reflexivity. Qed.
Example faces_d0x10 : faces "d0x10" = Fin (inject_Z 16). Proof. vm_compute. reflexivity. Qed.
Example faces_2d6 : faces "2d6" = Fin (inject_Z 26). Proof. vm_compute. reflexivity. Qed.
Example faces_bad : faces "dX" = Fin (inject_Z 20). Proof. vm_compute. reflexivity. Qed.
Example faces_zero : faces "d0" = Fin (inject_Z 20). Proof. vm_compute. reflexivity. Qed.
Example faces_neg : faces "d-3" = Fin (inject_Z (-3)). Proof. vm_compute. reflexivity. Qed.
Example faces_huge : faces ("d1" ++ zeros 400) = Inf false. Proof. vm_compute. reflexivity. Qed.
Example roll_example : roll_result (Fin (inject_Z 20)) (1 # 2) = Fin (inject_Z 11).
Proof. vm_compute. reflexivity. Qed.
Example roll_huge : roll_result (Inf false) 0 = NaN. Proof. vm_compute. reflexivity. Qed.
Example num_string_2_60 :
  num_to_string (to_number (inject_Z (2 ^ 60))) = "1152921504606847000".
Proof. vm_compute. reflexivity. Qed.
Example num_string_small : num_to_string (to_number (1 # 10000000)) = "1e-7".
Proof. vm_compute. reflexivity. Qed.
Example js_string_num : js_string (JArr [JNum "1.50"; JNull; JNum "-2e3"]) = "1.5,,-2000".
Proof. vm_compute. reflexivity. Qed.
Example truthy_underflow : truthy (JNum "1e-400") = false.
Proof. vm_compute. reflexivity. Qed.
Example trim_ideographic_space :
  trim_is_empty (String (ascii_of_nat 227) (String (ascii_of_nat 128)
                   (String (ascii_of_nat 128) " "))) = true.
Proof. vm_compute. reflexivity. Qed.
Example trim_nbsp_word :
  trim_is_empty (String (ascii_of_nat 194) (String (ascii_of_nat 160) "a")) = false.
Proof. vm_compute. reflexivity. Qed.

Example js_length_e_acute :
  js_length (String (ascii_of_nat 195) (String (ascii_of_nat 169) "")) = 1%nat.
Proof. vm_compute. reflexivity. Qed.
Example js_length_astral :
  js_length (String (ascii_of_nat 240) (String (ascii_of_nat 159)
               (String (ascii_of_nat 142) (String (ascii_of_nat 178) "")))) = 2%nat.
Proof. vm_compute. reflexivity. Qed.

(* ================================================================== *)
(** * Further properties of the store *)

#[export] Instance same_identity_preorder : PreOrder same_identity.
Proof.
  split; [intros r; split; reflexivity|].
  intros r1 r2 r3 [H1 H2] [H3 H4]; split; congruence.
Qed.

#[export] Instance same_identity_status_preorder : PreOrder same_identity_status.
Proof.
  split; [intros r; split; [split|]; reflexivity|].
  intros r1 r2 r3 [[H1 H2] H5] [[H3 H4] H6]; split; [split|]; congruence.
Qed.

(* ------------------------------------------------------------------ *)
(** ** What a computation does to the room document *)

Section RoomDoc.
Context {R : GameRoom -> GameRoom -> Prop} `{PreOrder GameRoom R}.

Lemma kr_ret {A} (a : A) : keeps_room_by R (ret a).
Proof. intros w. reflexivity. Qed.

Lemma kr_throw {A} (e : exn) : keeps_room_by R (@throw A e).
Proof. intros w. reflexivity. Qed.

Lemma kr_lift {A} (r : result A) : keeps_room_by R (lift r).
Proof. intros w. reflexivity. Qed.

Lemma kr_get_st : keeps_room_by R get_st.
Proof. intros w. reflexivity. Qed.

Lemma kr_set_isAiThinking b : keeps_room_by R (set_isAiThinking b).
Proof. intros w. reflexivity. Qed.

Lemma kr_bind {A B} (m : M A) (f : A -> M B) :
  keeps_room_by R m -> (forall a, keeps_room_by R (f a)) -> keeps_room_by R (bind m f).
Proof.
  intros Hm Hf w. unfold bind. specialize (Hm w).
  destruct (m w) as [[a|e] w1]; simpl in *; [|exact Hm].
  etransitivity; [exact Hm|apply Hf].
Qed.

Lemma kr_lift_bind {A B} (r : result A) (f : A -> M B) :
  (forall a, r = Ok a -> keeps_room_by R (f a)) -> keeps_room_by R (bind (lift r) f).
Proof.
  intros Hf w. unfold bind, lift.
  destruct r as [a|e]; [apply Hf; reflexivity|reflexivity].
Qed.

Lemma kr_try_catch {A} (m : M A) (h : exn -> M A) :
  keeps_room_by R m -> (forall e, keeps_room_by R (h e)) -> keeps_room_by R (try_catch m h).
Proof.
  intros Hm Hh w. unfold try_catch. specialize (Hm w).
  destruct (m w) as [[a|e] w1]; simpl in *; [exact Hm|].
  etransitivity; [exact Hm|apply Hh].
Qed.

Lemma kr_finally {A} (m : M A) (fin : M unit) :
  keeps_room_by R m -> keeps_room_by R fin -> keeps_room_by R (finally m fin).
Proof.
  intros Hm Hf w. unfold finally. specialize (Hm w).
  destruct (m w) as [r w1]. simpl in Hm. specialize (Hf w1).
  destruct (fin w1) as [[u|e] w2]; simpl in *; etransitivity; eassumption.
Qed.

Lemma kr_addMessage r c sn a : keeps_room_by R (addMessage r c sn a).
Proof.
  intros w. pose proof (keeps_addMessage r c sn a w) as Hk. unfold rp in Hk.
  injection Hk as Hk _. rewrite Hk. reflexivity.
Qed.

Lemma kr_commit ops :
  (forall op d, In op ops -> R (db_room d) (db_room (apply_op d op))) ->
  keeps_room_by R (commit ops).
Proof.
  intros Hops.
  assert (Hf : forall d, R (db_room d) (db_room (fold_left apply_op ops d))).
  { clear -Hops H. induction ops as [|op r IH]; intros d; simpl; [reflexivity|].
    etransitivity; [apply (Hops op d); left; reflexivity|].
    apply IH. intros op' d' Hin. apply Hops. right. exact Hin. }
  intros w. destruct (commit_all_or_none ops w) as [[_ Hc]|[_ Hc]]; rewrite Hc;
    [apply Hf|reflexivity].
Qed.

Lemma kr_update_player pid f : keeps_room_by R (update_player pid f).
Proof.
  intros w. unfold update_player, bind, write_ok, get_db, put_db, throw.
  destruct (w_faults w) as [|[|] fl]; simpl;
    try destruct (player_exists (db_players (w_db w)) pid); reflexivity.
Qed.

Lemma kr_set_player_doc p : keeps_room_by R (set_player_doc p).
Proof.
  intros w. unfold set_player_doc, bind, write_ok, get_db, put_db, throw.
  destruct (w_faults w) as [|[|] fl]; simpl; reflexivity.
Qed.

Lemma kr_update_room f : (forall r, R r (f r)) -> keeps_room_by R (update_room f).
Proof.
  intros Hf w. unfold update_room, bind, write_ok, get_db, put_db, throw.
  destruct (w_faults w) as [|[|] fl]; simpl; [apply Hf|apply Hf|reflexivity].
Qed.

End RoomDoc.

Lemma kr_weaken {A} (m : M A) :
  keeps_room_by same_identity_status m -> keeps_room_by same_identity m.
Proof. intros Hm w. exact (proj1 (Hm w)). Qed.

Lemma apply_op_same_status d op :
  same_identity_status (db_room d) (db_room (apply_op d op)).
Proof. destruct op; split; [split| |split| |split| |split|]; reflexivity. Qed.

Lemma turn_keeps_room_status reply hist :
  keeps_room_by same_identity_status (_triggerGmResponse reply hist).
Proof.
  unfold _triggerGmResponse. apply kr_bind; [apply kr_get_st|intros st].
  destruct (s_room st) as [room|]; [|apply kr_ret]. cbv zeta.
  apply kr_bind; [apply kr_set_isAiThinking|intros _].
  apply kr_finally; [|apply kr_set_isAiThinking].
  apply kr_try_catch; [|intros; apply kr_addMessage].
  apply kr_bind; [destruct reply; [apply kr_ret|apply kr_throw]|intros raw].
  apply kr_bind; [apply kr_lift|intros resp].
  apply kr_bind; [apply kr_lift|intros nar].
  apply kr_bind;
    [destruct nar as [n|]; [destruct (truthy n); [apply kr_addMessage|apply kr_ret]
                          |apply kr_ret]
    |intros _].
  apply kr_bind; [apply kr_lift|intros ops].
  apply kr_commit. intros op d _. apply apply_op_same_status.
Qed.

Lemma sendMessage_keeps_room_status prompt b :
  keeps_room_by same_identity_status (sendMessage prompt b).
Proof.
  unfold sendMessage. apply kr_bind; [apply kr_get_st|intros st].
  destruct (s_room st), (s_playerId st); try apply kr_ret.
  destruct (trim_is_empty prompt); [apply kr_ret|]. cbv zeta.
  apply kr_bind; [apply kr_addMessage|intros _].
  destruct b; [apply kr_update_player|apply kr_ret].
Qed.

Lemma performRoll_keeps_room_status rr rnd :
  keeps_room_by same_identity_status (performRoll rr rnd).
Proof.
  unfold performRoll. apply kr_bind; [apply kr_get_st|intros st].
  destruct (s_room st), (s_playerId st); try apply kr_ret.
  destruct (rr_diceType rr); try apply kr_throw. cbv zeta.
  apply kr_bind; [apply kr_addMessage|intros _].
  apply kr_update_room. intros r. split; [split|]; reflexivity.
Qed.

Lemma setReadyState_keeps_room_status b :
  keeps_room_by same_identity_status (setReadyState b).
Proof.
  unfold setReadyState. apply kr_bind; [apply kr_get_st|intros st].
  destruct (s_room st), (s_playerId st); try apply kr_ret.
  apply kr_update_player.
Qed.

Lemma createCharacter_keeps_room_status cd stats :
  keeps_room_by same_identity_status (createCharacter cd stats).
Proof.
  unfold createCharacter. apply kr_bind; [apply kr_get_st|intros st].
  destruct (s_room st), (s_playerId st); try apply kr_ret. cbv zeta.
  match goal with |- keeps_room_by _ (if ?c then _ else _) => destruct c end;
    [apply kr_ret|].
  apply kr_bind; [apply kr_set_player_doc|intros _].
  match goal with |- keeps_room_by _ (if ?c then _ else _) => destruct c end;
    [apply kr_ret|apply kr_addMessage].
Qed.

Lemma startGame_keeps_identity reply : keeps_room_by same_identity (startGame reply).
Proof.
  unfold startGame. apply kr_bind; [apply kr_get_st|intros st].
  destruct (s_room st); [|apply kr_ret].
  apply kr_bind; [apply kr_update_room; intros r; split; reflexivity|intros _].
  apply kr_weaken, turn_keeps_room_status.
Qed.

Lemma legacy_choices_ops_only_choices ch ps :
  forall ops, legacy_choices_ops ch ps = Ok ops ->
  Forall (fun op => match op with SetChoices _ _ => True | _ => False end) ops.
Proof.
  induction ps as [|p r IH]; intros ops Hops; simpl in Hops.
  - injection Hops as <-. constructor.
  - destruct (legacy_choices_ops ch r) as [rest|e] eqn:E.
    + specialize (IH rest eq_refl).
      destruct (class_label p) as [cls|]; simpl in Hops;
        [destruct (get_prop ch cls) as [[c|]|e]; simpl in Hops;
         [destruct (truthy c); simpl in Hops| |]|];
        try discriminate; injection Hops as <-; simpl;
        try (constructor; [exact I|]); exact IH.
    + destruct (class_label p) as [cls|]; simpl in Hops;
        [destruct (get_prop ch cls) as [[c|]|e']; simpl in Hops;
         [destruct (truthy c); simpl in Hops| |]|];
        discriminate.
Qed.

Lemma legacy_turn_keeps_room_eq reply hist :
  keeps_room_by eq (legacy_triggerGmResponse reply hist).
Proof.
  unfold legacy_triggerGmResponse. apply kr_bind; [apply kr_get_st|intros st].
  destruct (s_room st); [|apply kr_ret]. cbv zeta.
  apply kr_bind; [apply kr_set_isAiThinking|intros _].
  apply kr_finally; [|apply kr_set_isAiThinking].
  apply kr_try_catch; [|intros; apply kr_addMessage].
  unfold legacy_turn_body.
  apply kr_bind; [destruct reply; [apply kr_ret|apply kr_throw]|intros raw]. cbv zeta.
  apply kr_bind; [apply kr_lift|intros nar].
  apply kr_bind;
    [destruct nar as [n|]; [destruct (truthy n); [apply kr_addMessage|apply kr_ret]
                          |apply kr_ret]
    |intros _].
  apply kr_bind; [apply kr_lift|intros ch].
  destruct ch as [chv|]; [|apply kr_ret]. destruct (truthy chv); [|apply kr_ret].
  apply kr_lift_bind. intros ops Hops.
  destruct (forallb valid_op ops); [|apply kr_throw].
  apply kr_commit. intros op d Hin.
  pose proof (legacy_choices_ops_only_choices _ _ _ Hops) as Hall.
  rewrite Forall_forall in Hall. specialize (Hall op Hin).
  destruct op; try contradiction. reflexivity.
Qed.

Lemma Forall2_map_r {A} (P : A -> A -> Prop) (f : A -> A) (l : list A) :
  (forall x, P x (f x)) -> Forall2 P l (map f l).
Proof. intros Hf. induction l as [|x r IH]; simpl; constructor; [apply Hf|exact IH]. Qed.

Lemma set_player_doc_len p w n :
  (length (db_players (w_db w)) <= n)%nat ->
  (player_exists (db_players (w_db w)) (p_id p) = false ->
   (length (db_players (w_db w)) < n)%nat) ->
  (length (db_players (w_db (snd (set_player_doc p w)))) <= n)%nat.
Proof.
  intros H1 H2. unfold set_player_doc, bind, write_ok, get_db, put_db, throw.
  destruct (w_faults w) as [|[|] fl]; simpl; [| |exact H1];
  (destruct (player_exists (db_players (w_db w)) (p_id p)) eqn:E; simpl;
   [unfold update_players; rewrite length_map; exact H1
   |rewrite length_app; simpl; specialize (H2 eq_refl); lia]).
Qed.

(** The step of a session that starts no turn. *)
Lemma run_session_quiet (Inv : Session -> Prop) (Okev : Event -> Prop) :
  (forall s e, Inv s -> Okev e ->
     Inv (fst (session_step s e)) /\ snd (session_step s e) = None) ->
  forall evs s, Inv s -> Forall Okev evs -> snd (run_session s evs) = [].
Proof.
  intros Hstep evs. induction evs as [|e r IH]; intros s Hs Hf; [reflexivity|].
  inversion Hf as [|? ? He Hr]; subst. simpl.
  destruct (Hstep s e Hs He) as [Hs1 Hn].
  destruct (session_step s e) as [s1 f] eqn:E. simpl in *. subst f.
  destruct (run_session s1 r) as [s2 fs] eqn:E2. simpl.
  change fs with (snd (s2, fs)). rewrite <- E2. apply IH; assumption.
Qed.

Lemma trigger_guard_quiet s msgs :
  match s_room s with
  | None => True
  | Some r => opt_string_eqb (Some (r_hostId r)) (s_playerId s) = false \/
              r_activeRoll r <> None
  end -> trigger_guard s msgs = None.
Proof.
  unfold trigger_guard. destruct (s_room s) as [r|];
    [|destruct (lastMsg msgs); reflexivity].
  destruct (lastMsg msgs) as [lm|]; [|reflexivity]. intros [Hh|Ha].
  - destruct (m_role lm), (m_isAction lm) as [[|]|], (r_activeRoll r); try reflexivity.
    rewrite Hh. reflexivity.
  - destruct (r_activeRoll r); [|contradiction].
    destruct (m_role lm), (m_isAction lm) as [[|]|]; reflexivity.
Qed.

(* ------------------------------------------------------------------ *)
(** ** Extra properties *)

(** X1: with a room and an identity [pid] whose player document exists,
    and the write accepted, [setReadyState b] succeeds and changes only
    the [isReady] field of the caller's document, to [b]: every other
    field and every other player, the room and the chat log stay as they
    were. *)
Theorem setReadyState_updates_only_caller (b : bool) (w : World) (room : GameRoom)
  (pid : string) :
  s_room (w_st w) = Some room -> s_playerId (w_st w) = Some pid ->
  player_exists (db_players (w_db w)) pid = true -> hd true (w_faults w) = true ->
  fst (setReadyState b w) = Ok tt /\
  db_room (w_db (snd (setReadyState b w))) = db_room (w_db w) /\
  db_messages (w_db (snd (setReadyState b w))) = db_messages (w_db w) /\
  Forall2 (only_ready_changed pid b) (db_players (w_db w))
          (db_players (w_db (snd (setReadyState b w)))).
Proof.
  intros Hr Hp He Hf. destruct w as [d st fl]. simpl in *.
  unfold setReadyState, bind, get_st. simpl. rewrite Hr, Hp.
  unfold update_player, bind, write_ok, get_db, put_db, throw.
  destruct fl as [|[|] fl]; simpl in Hf |- *; try discriminate; rewrite He; simpl;
  (split; [reflexivity|]; split; [reflexivity|]; split; [reflexivity|]);
  unfold update_players; apply Forall2_map_r; intros p;
  unfold only_ready_changed; destruct (String.eqb (p_id p) pid); simpl;
  repeat split.
Qed.

Lemma setReadyState_updates_only_caller_witness :
  setReadyState true (mkWorld db0 st_p1 [])
  = (Ok tt, mkWorld (mkDb room0 [mkPlayer "p1" "Ann" None (Some "Fighter") [] true None]
                          [msgA]) st_p1 []) /\
  Forall2 (only_ready_changed "p1" false) [fighter]
          (db_players (w_db (snd (setReadyState false (mkWorld db0 st_p1 []))))).
Proof.
  split; [reflexivity|].
  exact (proj2 (proj2 (proj2
           (setReadyState_updates_only_caller false (mkWorld db0 st_p1 []) room0 "p1"
              eq_refl eq_refl eq_refl eq_refl)))).
Defined.

(** X2: with a room and an identity [pid] that has no player document in
    the store, [setReadyState] fails with the Firestore error of
    [updateDoc] on a missing document and changes no document. *)
Theorem setReadyState_without_player_doc (b : bool) (w : World) (room : GameRoom)
  (pid : string) :
  s_room (w_st w) = Some room -> s_playerId (w_st w) = Some pid ->
  player_exists (db_players (w_db w)) pid = false ->
  setReadyState b w = (Err FirestoreError, mkWorld (w_db w) (w_st w) (tl (w_faults w))).
Proof.
  intros Hr Hp He. destruct w as [d st fl]. simpl in *.
  unfold setReadyState, bind, get_st. simpl. rewrite Hr, Hp.
  unfold update_player, bind, write_ok, get_db, put_db, throw.
  destruct fl as [|[|] fl]; simpl; rewrite ?He; reflexivity.
Qed.

Lemma setReadyState_without_player_doc_witness :
  setReadyState true (world0 []) = (Err FirestoreError, world0 []).
Proof.
  exact (setReadyState_without_player_doc true (world0 []) room0 "host"
           eq_refl eq_refl eq_refl).
Defined.

(** X3: in a session that is in no room, every store action that writes
    to a room (a turn, [sendMessage], [performRoll], [setReadyState],
    [createCharacter], [startGame]) returns at once and changes nothing. *)
Theorem store_actions_need_room (a : StoreAction) (w : World) :
  s_room (w_st w) = None -> run_action a w = (Ok tt, w).
Proof.
  intros Hr. destruct a; cbn [run_action];
    unfold _triggerGmResponse, sendMessage, performRoll, setReadyState,
           createCharacter, startGame, bind, get_st; simpl; rewrite Hr;
    try destruct (s_playerId (w_st w)); reflexivity.
Qed.

Lemma store_actions_need_room_witness :
  run_action (AStart None) (mkWorld db0 (mkSession None [] [] (Some "host") false None) [])
  = (Ok tt, mkWorld db0 (mkSession None [] [] (Some "host") false None) []).
Proof.
  exact (store_actions_need_room (AStart None)
           (mkWorld db0 (mkSession None [] [] (Some "host") false None) []) eq_refl).
Defined.

(** X4: in a session with no signed-in identity, [performRoll],
    [setReadyState] and [createCharacter] return at once and change
    nothing, even in a room. *)
Theorem player_actions_need_login (w : World) :
  s_playerId (w_st w) = None ->
  (forall rr rnd, performRoll rr rnd w = (Ok tt, w)) /\
  (forall b, setReadyState b w = (Ok tt, w)) /\
  (forall cd stats, createCharacter cd stats w = (Ok tt, w)).
Proof.
  intros Hp. split; [|split]; intros;
    unfold performRoll, setReadyState, createCharacter, bind, get_st; simpl;
    rewrite Hp; destruct (s_room (w_st w)); reflexivity.
Qed.

Lemma player_actions_need_login_witness :
  createCharacter cd_bard [] (mkWorld db0 (mkSession (Some room0) [fighter] [msgA] None false None) [])
  = (Ok tt, mkWorld db0 (mkSession (Some room0) [fighter] [msgA] None false None) []).
Proof.
  exact (proj2 (proj2 (player_actions_need_login
           (mkWorld db0 (mkSession (Some room0) [fighter] [msgA] None false None) [])
           eq_refl)) cd_bard []).
Defined.

(** X5: when the session's player list has four or more players and the
    caller is not among them, [createCharacter] writes nothing (the room
    is full). *)
Theorem createCharacter_room_full (cd : CharData) (stats : list (string * Z)) (w : World)
  (pid : string) :
  s_playerId (w_st w) = Some pid ->
  (4 <= length (s_players (w_st w)))%nat ->
  player_exists (s_players (w_st w)) pid = false ->
  createCharacter cd stats w = (Ok tt, w).
Proof.
  intros Hp Hl Hk. unfold createCharacter, bind, get_st. cbv beta.
  rewrite Hp, Hk, (proj2 (Nat.leb_le _ _) Hl).
  destruct (s_room (w_st w)); reflexivity.
Qed.

Lemma createCharacter_room_full_witness :
  createCharacter cd_bard []
    (mkWorld (mkDb room0 party4 [msgA])
             (mkSession (Some room0) party4 [msgA] (Some "p5") false None) [])
  = (Ok tt, mkWorld (mkDb room0 party4 [msgA])
                    (mkSession (Some room0) party4 [msgA] (Some "p5") false None) []).
Proof.
  exact (createCharacter_room_full cd_bard []
           (mkWorld (mkDb room0 party4 [msgA])
                    (mkSession (Some room0) party4 [msgA] (Some "p5") false None) [])
           "p5" eq_refl ltac:(simpl; lia) eq_refl).
Defined.

(** X6: when the session's player list is the store's, a room of at most
    four players still has at most four after [createCharacter],
    whatever the writes' fate. *)
Theorem createCharacter_keeps_player_cap (cd : CharData) (stats : list (string * Z))
  (w : World) :
  s_players (w_st w) = db_players (w_db w) ->
  (length (db_players (w_db w)) <= 4)%nat ->
  (length (db_players (w_db (snd (createCharacter cd stats w)))) <= 4)%nat.
Proof.
  intros Hs Hl. unfold createCharacter, bind at 1, get_st. cbv beta. rewrite Hs.
  destruct (s_room (w_st w)) as [room|]; [|exact Hl].
  destruct (s_playerId (w_st w)) as [pid|]; [|exact Hl].
  destruct ((4 <=? length (db_players (w_db w)))%nat
            && negb (player_exists (db_players (w_db w)) pid)) eqn:G; [exact Hl|].
  unfold bind.
  match goal with |- context [set_player_doc ?p w] =>
    assert (Hlen : (length (db_players (w_db (snd (set_player_doc p w)))) <= 4)%nat);
    [apply set_player_doc_len; [exact Hl|]; simpl; intros E; rewrite E in G;
     rewrite andb_true_r in G; apply Nat.leb_gt; exact G|];
    destruct (set_player_doc p w) as [[[]|e] w1]; simpl in Hlen |- *; [|exact Hlen]
  end.
  destruct (player_exists (db_players (w_db w)) pid); [exact Hlen|].
  match goal with |- context [addMessage ?r ?c ?sn ?a w1] =>
    pose proof (keeps_addMessage r c sn a w1) as Hk end.
  unfold rp in Hk. injection Hk as _ Hk. rewrite Hk. exact Hlen.
Qed.

Lemma createCharacter_keeps_player_cap_witness :
  (length (db_players (w_db (snd (createCharacter cd_bard []
     (mkWorld (mkDb room0 (firstn 3 party4) [msgA])
              (mkSession (Some room0) (firstn 3 party4) [msgA] (Some "p5") false None)
              []))))) <= 4)%nat.
Proof.
  exact (createCharacter_keeps_player_cap cd_bard []
           (mkWorld (mkDb room0 (firstn 3 party4) [msgA])
                    (mkSession (Some room0) (firstn 3 party4) [msgA] (Some "p5") false None)
                    [])
           eq_refl ltac:(simpl; lia)).
Defined.

(** X7: a caller in a room, absent from the session's player list (which
    has fewer than four players) and from the store, with every write
    accepted: [createCharacter] appends the caller's new document
    ([isReady] false, [choices] null) to the players and one system
    message "<name> (<class>) has joined." to the chat log.  The store's
    own count is not checked, so a stale player list lets a fifth player
    in. *)
Theorem createCharacter_new_player (cd : CharData) (stats : list (string * Z))
  (w : World) (room : GameRoom) (pid : string) :
  s_room (w_st w) = Some room -> s_playerId (w_st w) = Some pid ->
  player_exists (s_players (w_st w)) pid = false ->
  (length (s_players (w_st w)) < 4)%nat ->
  player_exists (db_players (w_db w)) pid = false -> w_faults w = [] ->
  createCharacter cd stats w =
  (Ok tt,
   mkWorld (mkDb (db_room (w_db w))
                 (db_players (w_db w) ++ [new_player_doc pid cd stats])%list
                 (db_messages (w_db w) ++
                  [mkChatMessage ("m" ++ nat_to_dec (length (db_messages (w_db w))))
                                 RSystem (JStr (join_text cd)) None None])%list)
           (w_st w) []).
Proof.
  intros Hr Hp Hk Hl Hd Hf. destruct w as [d st fl]. simpl in *. subst fl.
  unfold createCharacter, bind, get_st. cbv beta. cbn [w_st]. rewrite Hr, Hp, Hk.
  rewrite (proj2 (Nat.leb_gt _ _) Hl). simpl.
  unfold set_player_doc, bind, write_ok, get_db, put_db. simpl. rewrite Hd.
  unfold addMessage, check_fs, bind, ret, write_ok, get_db, put_db. simpl.
  reflexivity.
Qed.

Lemma createCharacter_new_player_witness :
  length (db_players (w_db (snd (createCharacter cd_bard [] world_stale)))) = 5%nat.
Proof.
  rewrite (createCharacter_new_player cd_bard [] world_stale room0 "p5"
             eq_refl eq_refl eq_refl ltac:(simpl; lia) eq_refl eq_refl).
  reflexivity.
Defined.

(** X8: a caller whose player document already exists (and who is in the
    session's player list) gets that document replaced by a fresh one
    ([isReady] false, [choices] null, the new stats) when every write is
    accepted; no other player changes, no join message is added and the
    room is unchanged. *)
Theorem createCharacter_existing_player (cd : CharData) (stats : list (string * Z))
  (w : World) (room : GameRoom) (pid : string) :
  s_room (w_st w) = Some room -> s_playerId (w_st w) = Some pid ->
  player_exists (s_players (w_st w)) pid = true ->
  player_exists (db_players (w_db w)) pid = true -> w_faults w = [] ->
  fst (createCharacter cd stats w) = Ok tt /\
  db_room (w_db (snd (createCharacter cd stats w))) = db_room (w_db w) /\
  db_messages (w_db (snd (createCharacter cd stats w))) = db_messages (w_db w) /\
  Forall2 (fun p q => q = if String.eqb (p_id p) pid then new_player_doc pid cd stats
                          else p)
          (db_players (w_db w)) (db_players (w_db (snd (createCharacter cd stats w)))).
Proof.
  intros Hr Hp Hk Hd Hf. destruct w as [d st fl]. simpl in *. subst fl.
  unfold createCharacter, bind, get_st. simpl. rewrite Hr, Hp, Hk.
  rewrite andb_false_r.
  unfold set_player_doc, bind, write_ok, get_db, put_db, ret. simpl. rewrite Hd. simpl.
  split; [reflexivity|]. split; [reflexivity|]. split; [reflexivity|].
  unfold update_players. apply Forall2_map_r. intros p. reflexivity.
Qed.

Lemma createCharacter_existing_player_witness :
  db_players (w_db (snd (createCharacter cd_bard [] (mkWorld db0 st_p1 []))))
  = [new_player_doc "p1" cd_bard []].
Proof.
  destruct (createCharacter_existing_player cd_bard [] (mkWorld db0 st_p1 []) room0 "p1"
              eq_refl eq_refl eq_refl eq_refl eq_refl) as [_ [_ [_ H]]].
  revert H. generalize (db_players (w_db (snd (createCharacter cd_bard [] (mkWorld db0 st_p1 []))))).
  intros l H. inversion H as [|p q l1 l2 Hq Hn]; subst. inversion Hn; subst.
  reflexivity.
Defined.

(** X9: no store action changes the room's id or host, and none but
    [startGame] changes its status. *)
Theorem store_actions_keep_room_identity (a : StoreAction) (w : World) :
  r_id (db_room (w_db (snd (run_action a w)))) = r_id (db_room (w_db w)) /\
  r_hostId (db_room (w_db (snd (run_action a w)))) = r_hostId (db_room (w_db w)) /\
  match a with
  | AStart _ => True
  | _ => r_gameStatus (db_room (w_db (snd (run_action a w))))
         = r_gameStatus (db_room (w_db w))
  end.
Proof.
  destruct a as [reply hist|prompt b|rr rnd|b|cd stats|reply]; cbn [run_action];
  [ destruct (turn_keeps_room_status reply hist w) as [[H1 H2] H3]
  | destruct (sendMessage_keeps_room_status prompt b w) as [[H1 H2] H3]
  | destruct (performRoll_keeps_room_status rr rnd w) as [[H1 H2] H3]
  | destruct (setReadyState_keeps_room_status b w) as [[H1 H2] H3]
  | destruct (createCharacter_keeps_room_status cd stats w) as [[H1 H2] H3]
  | destruct (startGame_keeps_identity reply w) as [H1 H2] ];
  repeat split; assumption.
Qed.

(** X10: [startGame] in a room: when its status write is accepted, the
    room is [Playing] at the end whatever the turn it starts does; when
    that write is rejected, it fails and no turn is started. *)
Theorem startGame_sets_playing (reply : option string) (w : World) (room : GameRoom) :
  s_room (w_st w) = Some room ->
  (hd true (w_faults w) = true ->
   r_gameStatus (db_room (w_db (snd (startGame reply w)))) = Playing) /\
  (hd true (w_faults w) = false ->
   startGame reply w = (Err FirestoreError, mkWorld (w_db w) (w_st w) (tl (w_faults w)))).
Proof.
  intros Hr. split; intros Hf; unfold startGame, bind at 1, get_st; simpl; rewrite Hr.
  - assert (Hu : exists w1,
               update_room (fun r => set_status r Playing) w = (Ok tt, w1) /\
               r_gameStatus (db_room (w_db w1)) = Playing).
    { unfold update_room, bind, write_ok, get_db, put_db.
      destruct (w_faults w) as [|[|] fl]; simpl in Hf; try discriminate;
        eexists; split; reflexivity. }
    destruct Hu as [w1 [Hu Hs]]. unfold bind. rewrite Hu.
    destruct (turn_keeps_room_status reply [] w1) as [_ Hst].
    rewrite Hst. exact Hs.
  - unfold bind, update_room, bind, write_ok, get_db, put_db, throw.
    destruct (w_faults w) as [|[|] fl]; simpl in Hf; try discriminate. reflexivity.
Qed.

Lemma startGame_sets_playing_witness :
  r_gameStatus (db_room (w_db (snd (startGame None
    (mkWorld (mkDb (set_status room0 Lobby) [fighter] [msgA])
             (mkSession (Some (set_status room0 Lobby)) [fighter] [msgA] (Some "host") false None)
             []))))) = Playing.
Proof.
  exact (proj1 (startGame_sets_playing None
           (mkWorld (mkDb (set_status room0 Lobby) [fighter] [msgA])
                    (mkSession (Some (set_status room0 Lobby)) [fighter] [msgA] (Some "host")
                               false None) [])
           (set_status room0 Lobby) eq_refl) eq_refl).
Defined.

(** X11: [performRoll] is not atomic: when its chat message is accepted
    and the following deletion of the room's active roll is rejected,
    the roll message stays in the chat log, the room keeps its active
    roll, and the action fails. *)
Theorem performRoll_rejected_room_update (rr : RollRequest) (rnd : Q) (w : World)
  (room : GameRoom) (pid d : string) (fl : list bool) :
  s_room (w_st w) = Some room -> s_playerId (w_st w) = Some pid ->
  rr_diceType rr = JStr d -> w_faults w = true :: false :: fl ->
  performRoll rr rnd w =
  (Err FirestoreError,
   mkWorld
     (mkDb (db_room (w_db w)) (db_players (w_db w))
           (db_messages (w_db w) ++
            [mkChatMessage ("m" ++ nat_to_dec (length (db_messages (w_db w)))) RUser
               (JStr (roll_text (rr_reason rr) (roll_result (faces d) rnd) d))
               (Some "System") (Some true)])%list)
     (w_st w) fl).
Proof.
  intros Hr Hp Hd Hf. destruct w as [db st faults]. simpl in *. subst faults.
  unfold performRoll, bind, get_st. simpl. rewrite Hr, Hp, Hd. reflexivity.
Qed.

Lemma performRoll_rejected_room_update_witness :
  r_activeRoll (db_room (w_db (snd (performRoll rr_trap (1 # 2) (world_pending [true; false])))))
  = Some rr_trap /\
  length (db_messages (w_db (snd (performRoll rr_trap (1 # 2) (world_pending [true; false])))))
  = 2%nat.
Proof.
  rewrite (performRoll_rejected_room_update rr_trap (1 # 2) (world_pending [true; false])
             room_pending "p1" "d6" [] eq_refl eq_refl eq_refl eq_refl).
  split; reflexivity.
Defined.

(** X12: with a room and an identity, a roll request whose [diceType] is
    not a string makes [performRoll] throw a [TypeError] (from
    [diceType.replace]) before any write. *)
Theorem performRoll_non_string_dice (rr : RollRequest) (rnd : Q) (w : World)
  (room : GameRoom) (pid : string) :
  s_room (w_st w) = Some room -> s_playerId (w_st w) = Some pid ->
  (forall d, rr_diceType rr <> JStr d) ->
  performRoll rr rnd w = (Err TypeError, w).
Proof.
  intros Hr Hp Hd. unfold performRoll, bind, get_st. simpl. rewrite Hr, Hp.
  destruct (rr_diceType rr) eqn:E; try reflexivity.
  exfalso. exact (Hd s eq_refl).
Qed.

Lemma performRoll_non_string_dice_witness :
  performRoll (mkRollRequest "p1" "Ann" (JNum "20") (JStr "Trap")) (1 # 2) (world0 [])
  = (Err TypeError, world0 []).
Proof.
  exact (performRoll_non_string_dice (mkRollRequest "p1" "Ann" (JNum "20") (JStr "Trap"))
           (1 # 2) (world0 []) room0 "host" eq_refl eq_refl
           (fun d H => ltac:(discriminate H))).
Defined.

(** X14: when the reply's [roll_request] has a truthy [targetClassName],
    the batch of the reconciliation does not depend on the reply's
    [choices] at all: replacing or adding a [choices] field gives the
    same batch (or the same error). *)
Theorem roll_branch_ignores_choices (room : GameRoom) (players : list Player)
  (fs : list (string * json)) (v : json) (tcn : option json) :
  target_class (assoc_get "roll_request" fs) = Ok tcn -> truthy_opt tcn = true ->
  reconcile_ops room players (VObj (assoc_set "choices" v fs))
  = reconcile_ops room players (VObj fs).
Proof.
  intros Ht Htr. unfold reconcile_ops, get_prop.
  rewrite (assoc_get_set_neq "scene_image_prompt" "choices") by discriminate.
  rewrite (assoc_get_set_neq "roll_request" "choices") by discriminate.
  cbn [rbind]. rewrite Ht. cbn [rbind]. rewrite Htr. reflexivity.
Qed.

Lemma roll_branch_ignores_choices_witness :
  reconcile_ops room0 [fighter]
    (VObj (assoc_set "choices" (JObj [("Fighter", JArr [JStr "a"; JStr "b"])])
       [("roll_request", JObj [("targetClassName", JStr "Fighter")])]))
  = reconcile_ops room0 [fighter]
      (VObj [("roll_request", JObj [("targetClassName", JStr "Fighter")])]).
Proof.
  exact (roll_branch_ignores_choices room0 [fighter]
           [("roll_request", JObj [("targetClassName", JStr "Fighter")])]
           (JObj [("Fighter", JArr [JStr "a"; JStr "b"])]) (Some (JStr "Fighter"))
           eq_refl eq_refl).
Defined.

(** X15: the older store's turn never writes the room document: whatever
    the reply, only chat messages and players' choices can change. *)
Theorem legacy_turn_keeps_room (reply : option string) (hist : list ChatMessage)
  (w : World) :
  db_room (w_db (snd (legacy_triggerGmResponse reply hist w))) = db_room (w_db w).
Proof. symmetry. apply legacy_turn_keeps_room_eq. Qed.

(** X16: in the older store, a reply that is not JSON is not an error: its
    whole non-empty text is appended as the GM's narrative, no player or
    room document changes, and the busy flag is cleared. *)
Theorem legacy_turn_posts_unparsed_reply (raw : string) (hist : list ChatMessage)
  (w : World) (room : GameRoom) :
  s_room (w_st w) = Some room -> json_parse raw = None -> raw <> "" -> w_faults w = [] ->
  legacy_triggerGmResponse (Some raw) hist w =
  (Ok tt,
   mkWorld (mkDb (db_room (w_db w)) (db_players (w_db w))
                 (db_messages (w_db w) ++
                  [mkChatMessage ("m" ++ nat_to_dec (length (db_messages (w_db w))))
                                 RAssistant (JStr raw) (Some "GM") None])%list)
           (with_thinking (w_st w) false) []).
Proof.
  intros Hr Hp Hne Hf. destruct w as [d st fl]. simpl in *. subst fl.
  unfold legacy_triggerGmResponse, legacy_turn_body, legacy_parse, bind, ret, get_st.
  cbn [w_st]. rewrite Hr. cbv beta iota zeta. rewrite Hp.
  unfold lift, get_prop, view, assoc_get. simpl.
  destruct (String.eqb_spec raw ""); [contradiction|]. simpl.
  unfold addMessage, check_fs, bind, ret, write_ok, get_db, put_db. simpl.
  reflexivity.
Qed.

Lemma legacy_turn_posts_unparsed_reply_witness :
  db_messages (w_db (snd (legacy_triggerGmResponse (Some "The cave is dark.") [] (world0 []))))
  = [msgA; mkChatMessage "m1" RAssistant (JStr "The cave is dark.") (Some "GM") None].
Proof.
  rewrite (legacy_turn_posts_unparsed_reply "The cave is dark." [] (world0 []) room0
             eq_refl ltac:(vm_compute; reflexivity) ltac:(discriminate) eq_refl).
  reflexivity.
Defined.

(** X17: after [cleanup], no chat-log snapshot starts a turn until a
    room snapshot brings a room back. *)
Theorem no_turn_after_cleanup (s : Session) (evs : list Event) :
  Forall (fun e => match e with EvRoom (Some _) => False | _ => True end) evs ->
  snd (run_session (fst (session_step s EvCleanup)) evs) = [].
Proof.
  apply (run_session_quiet (fun s => s_room s = None)); [|reflexivity].
  intros s1 e Hs He. unfold with_room, with_thinking.
  destruct e as [msgs|[r|]|ps| | | |p]; simpl in He |- *; try contradiction.
  - rewrite trigger_guard_quiet by (simpl; rewrite Hs; exact I). split; [exact Hs|reflexivity].
  - split; reflexivity.
  - split; [exact Hs|reflexivity].
  - split; [exact Hs|reflexivity].
  - rewrite Hs. split; [exact Hs|reflexivity].
  - split; reflexivity.
  - split; [exact Hs|reflexivity].
Qed.

Lemma no_turn_after_cleanup_witness :
  snd (run_session (fst (session_step st0 EvCleanup)) [EvMessages [msgA]; EvRoom None]) = [].
Proof.
  apply no_turn_after_cleanup. repeat constructor.
Defined.

(** X18: a session whose player is not the host of any room it sees
    never starts a turn, whatever chat-log snapshots arrive: only the
    host's session runs the game master. *)
Theorem non_host_never_starts_turn (s : Session) (pid : string) (evs : list Event) :
  s_playerId s = Some pid ->
  (forall r, s_room s = Some r -> r_hostId r <> pid) ->
  Forall (fun e => match e with
                   | EvRoom (Some r) => r_hostId r <> pid
                   | EvAuth p => p = Some pid
                   | _ => True
                   end) evs ->
  snd (run_session s evs) = [].
Proof.
  intros Hp Hr.
  apply (run_session_quiet (fun s => s_playerId s = Some pid /\
                                     forall r, s_room s = Some r -> r_hostId r <> pid));
    [|split; assumption].
  intros s1 e [Hp1 Hr1] He. unfold with_room, with_thinking.
  assert (Hq : match s_room s1 with
               | None => True
               | Some r => opt_string_eqb (Some (r_hostId r)) (s_playerId s1) = false \/
                           r_activeRoll r <> None
               end).
  { destruct (s_room s1) as [r|]; [|exact I]. left. rewrite Hp1. simpl.
    apply String.eqb_neq, Hr1. reflexivity. }
  destruct e as [msgs|[r|]|ps| | | |p].
  - cbn [session_step]. rewrite trigger_guard_quiet by exact Hq.
    simpl. split; [split; assumption|reflexivity].
  all: simpl in He |- *.
  - split; [split; [exact Hp1|]|reflexivity]. intros r' E. injection E as <-. exact He.
  - split; [split; [exact Hp1|intros ? ?; discriminate]|reflexivity].
  - split; [split; assumption|reflexivity].
  - split; [split; assumption|reflexivity].
  - unfold session_step. destruct (s_room s1) eqn:E; simpl; rewrite ?E;
      (split; [split; assumption|reflexivity]).
  - split; [split; [exact Hp1|intros ? ?; discriminate]|reflexivity].
  - split; [split; [exact He|exact Hr1]|reflexivity].
Qed.

Lemma non_host_never_starts_turn_witness :
  snd (run_session st_p1 [EvMessages [msgA]; EvTurnSettled; EvMessages [msgA]]) = [].
Proof.
  apply (non_host_never_starts_turn st_p1 "p1").
  - reflexivity.
  - intros r E. injection E as <-. discriminate.
  - repeat constructor.
Defined.

(** X19: while every room the session sees has an active roll, no
    chat-log snapshot starts a turn, not even in the host's session. *)
Theorem active_roll_blocks_turns (s : Session) (evs : list Event) :
  (forall r, s_room s = Some r -> r_activeRoll r <> None) ->
  Forall (fun e => match e with EvRoom (Some r) => r_activeRoll r <> None | _ => True end)
         evs ->
  snd (run_session s evs) = [].
Proof.
  intros Hr.
  apply (run_session_quiet (fun s => forall r, s_room s = Some r -> r_activeRoll r <> None));
    [|exact Hr].
  intros s1 e Hr1 He. unfold with_room, with_thinking.
  assert (Hq : match s_room s1 with
               | None => True
               | Some r => opt_string_eqb (Some (r_hostId r)) (s_playerId s1) = false \/
                           r_activeRoll r <> None
               end).
  { destruct (s_room s1) as [r|]; [|exact I]. right. apply Hr1. reflexivity. }
  destruct e as [msgs|[r|]|ps| | | |p].
  - cbn [session_step]. rewrite trigger_guard_quiet by exact Hq.
    simpl. split; [exact Hr1|reflexivity].
  all: simpl in He |- *.
  - split; [|reflexivity]. intros r' E. injection E as <-. exact He.
  - split; [intros ? ?; discriminate|reflexivity].
  - split; [exact Hr1|reflexivity].
  - split; [exact Hr1|reflexivity].
  - unfold session_step. destruct (s_room s1) eqn:E; simpl; rewrite ?E;
      (split; [exact Hr1|reflexivity]).
  - split; [intros ? ?; discriminate|reflexivity].
  - split; [exact Hr1|reflexivity].
Qed.

Lemma active_roll_blocks_turns_witness :
  snd (run_session (mkSession (Some room_pending) [fighter] [msgA] (Some "host") false None)
                   [EvMessages [msgA]]) = [].
Proof.
  apply active_roll_blocks_turns.
  - intros r E. injection E as <-. discriminate.
  - repeat constructor.
Defined.

(** X20: in the older store, a choices update of the turn's batch goes to
    a player only when the reply's choices object has that player's class
    name as a key, exactly (no case folding), with a truthy value, and it
    writes that value. *)
Theorem legacy_choices_exact_key (ch : jsv) (ps : list Player) (ops : list BatchOp)
  (pid : string) (c : json) :
  legacy_choices_ops ch ps = Ok ops -> In (SetChoices pid c) ops ->
  exists p cls, In p ps /\ p_id p = pid /\ class_label p = Some cls /\
                get_prop ch cls = Ok (Some c) /\ truthy c = true.
Proof.
  revert ops. induction ps as [|p r IH]; intros ops Hops Hin; simpl in Hops.
  - injection Hops as <-. contradiction.
  - assert (Hhere : forall here, (match class_label p with
        | None => Ok []
        | Some cls =>
            let! v := get_prop ch cls in
            match v with
            | Some c => if truthy c then Ok [SetChoices (p_id p) c] else Ok []
            | None => Ok []
            end
        end) = Ok here -> In (SetChoices pid c) here ->
        exists cls, p_id p = pid /\ class_label p = Some cls /\
                    get_prop ch cls = Ok (Some c) /\ truthy c = true).
    { intros here Hh Hi.
      destruct (class_label p) as [cls|]; [|injection Hh as <-; contradiction].
      destruct (get_prop ch cls) as [[c'|]|e] eqn:Eg; simpl in Hh; try discriminate;
        [|injection Hh as <-; contradiction].
      destruct (truthy c') eqn:Et; injection Hh as <-; [|contradiction].
      destruct Hi as [Heq|[]]. injection Heq as <- <-.
      exists cls. repeat split; auto. }
    destruct (match class_label p with
        | None => Ok []
        | Some cls =>
            let! v := get_prop ch cls in
            match v with
            | Some c => if truthy c then Ok [SetChoices (p_id p) c] else Ok []
            | None => Ok []
            end
        end) as [here|e] eqn:Eh; simpl in Hops; [|discriminate].
    destruct (legacy_choices_ops ch r) as [rest|e] eqn:E; simpl in Hops; [|discriminate].
    injection Hops as <-. apply in_app_or in Hin. destruct Hin as [Hin|Hin].
    + destruct (Hhere here eq_refl Hin) as [cls H]. exists p, cls. split; [left; reflexivity|exact H].
    + destruct (IH rest eq_refl Hin) as [q [cl [Hq Hrest]]].
      exists q, cl. split; [right; exact Hq|exact Hrest].
Qed.

Lemma legacy_choices_exact_key_witness :
  legacy_choices_ops (VObj [("fighter", JArr [JStr "a"]); ("Fighter", JArr [JStr "b"])])
                     [fighter] = Ok [SetChoices "p1" (JArr [JStr "b"])] /\
  exists p cls, In p [fighter] /\ p_id p = "p1" /\ class_label p = Some cls /\
    get_prop (VObj [("fighter", JArr [JStr "a"]); ("Fighter", JArr [JStr "b"])]) cls
    = Ok (Some (JArr [JStr "b"])) /\ truthy (JArr [JStr "b"]) = true.
Proof.
  split; [reflexivity|].
  apply (legacy_choices_exact_key _ [fighter] [SetChoices "p1" (JArr [JStr "b"])]);
    [reflexivity|left; reflexivity].
Defined.
